(** * Orbital Injection Simulator (src/components/OrbitalLab.tsx)

    A shallow embedding of the OrbitalLab component: the per-frame
    trajectory integrator ([useFrame]), the reset effect, the run
    controller (play / reset / slider handlers) and the orbital-elements
    predictor ([trajectoryStats]).

    JavaScript numbers are kept behind the interface [Number], so that the
    control flow of the component is written once.  Two instances are
    given: IEEE-754 binary64 ([float], what the browser computes with, and
    executable here) and the real numbers ([R], the idealisation in which
    the formulas of orbital mechanics are stated). *)

From Stdlib Require Import List Bool ZArith String Lia Sorted.
From Stdlib Require Import Reals Lra.
From Stdlib Require Floats.
Import ListNotations.

Set Implicit Arguments.

(** ** Numbers *)

(** The arithmetic the component uses on JS numbers.  [nltb x y] is
    [x < y], [nleb x y] is [x <= y], [neqb x y] is [x == y]; [x > y] and
    [x >= y] are the same tests with the operands swapped. *)
Class Number (N : Type) : Type := {
  ofZ : Z -> N;
  nadd : N -> N -> N;
  nsub : N -> N -> N;
  nmul : N -> N -> N;
  ndiv : N -> N -> N;
  nneg : N -> N;
  Math_sqrt : N -> N;
  nltb : N -> N -> bool;
  nleb : N -> N -> bool;
  neqb : N -> N -> bool
}.

(** [Math.PI], [Math.sin] and [Math.cos]. *)
Class Trig (N : Type) : Type := {
  Math_PI : N;
  Math_sin : N -> N;
  Math_cos : N -> N
}.

Declare Scope num_scope.
Delimit Scope num_scope with num.
Infix "+" := nadd : num_scope.
Infix "-" := nsub : num_scope.
Infix "*" := nmul : num_scope.
Infix "/" := ndiv : num_scope.
Notation "- x" := (nneg x) : num_scope.
Infix "<?" := nltb : num_scope.
Notation "x >? y" := (nltb y x) : num_scope.
Notation "x >=? y" := (nleb y x) : num_scope.

(** IEEE-754 binary64. *)
Definition float_ofZ (z : Z) : PrimFloat.float :=
  match z with
  | Z0 => PrimFloat.zero
  | Zpos _ => PrimFloat.of_uint63 (Uint63.of_Z z)
  | Zneg p => PrimFloat.opp (PrimFloat.of_uint63 (Uint63.of_Z (Zpos p)))
  end.

#[export] Instance float_Number : Number PrimFloat.float := {|
  ofZ := float_ofZ;
  nadd := PrimFloat.add;
  nsub := PrimFloat.sub;
  nmul := PrimFloat.mul;
  ndiv := PrimFloat.div;
  nneg := PrimFloat.opp;
  Math_sqrt := PrimFloat.sqrt;
  nltb := PrimFloat.ltb;
  nleb := PrimFloat.leb;
  neqb := PrimFloat.eqb
|}.

(** Real numbers.  [sqrt] and [/] of the Standard Library are total
    ([sqrt x = 0] for [x < 0], [x / 0 = 0]); the theorems below that use
    this instance show that the code stays inside their domains. *)
Definition Rltb (a b : R) : bool := if Rlt_dec a b then true else false.
Definition Rleb (a b : R) : bool := if Rle_dec a b then true else false.
Definition Reqb (a b : R) : bool := if Req_dec_T a b then true else false.

#[export] Instance R_Number : Number R := {|
  ofZ := IZR;
  nadd := Rplus;
  nsub := Rminus;
  nmul := Rmult;
  ndiv := Rdiv;
  nneg := Ropp;
  Math_sqrt := R_sqrt.sqrt;
  nltb := Rltb;
  nleb := Rleb;
  neqb := Reqb
|}.

#[export] Instance R_Trig : Trig R := {|
  Math_PI := Rtrigo1.PI;
  Math_sin := Rtrigo_def.sin;
  Math_cos := Rtrigo_def.cos
|}.

(** ** three.js [Vector3]

    The vector class comes from the three.js library, which is not part of
    the repository; the methods the component calls are written after the
    library's implementation.  Methods that mutate [this] return the new
    value. *)

Record Vector3 (N : Type) : Type := Vec3 { x : N; y : N; z : N }.
Arguments Vec3 {N} _ _ _.

Module V3.
Section Ops.
Context {N : Type} `{Number N}.
Local Open Scope num_scope.

(** JS [a || b] on numbers: [0], [-0] and [NaN] are falsy. *)
Definition truthy (a : N) : bool := neqb a a && negb (neqb a (ofZ 0)).
Definition or_else (a b : N) : N := if truthy a then a else b.

Definition length (v : Vector3 N) : N :=
  Math_sqrt (x v * x v + y v * y v + z v * z v).

Definition multiplyScalar (v : Vector3 N) (s : N) : Vector3 N :=
  Vec3 (x v * s) (y v * s) (z v * s).

Definition divideScalar (v : Vector3 N) (s : N) : Vector3 N :=
  multiplyScalar v (ofZ 1 / s).

Definition normalize (v : Vector3 N) : Vector3 N :=
  divideScalar v (or_else (length v) (ofZ 1)).

Definition negate (v : Vector3 N) : Vector3 N :=
  Vec3 (- x v) (- y v) (- z v).

Definition add (a b : Vector3 N) : Vector3 N :=
  Vec3 (x a + x b) (y a + y b) (z a + z b).

Definition distanceToSquared (a b : Vector3 N) : N :=
  let dx := x a - x b in
  let dy := y a - y b in
  let dz := z a - z b in
  dx * dx + dy * dy + dz * dz.

Definition distanceTo (a b : Vector3 N) : N :=
  Math_sqrt (distanceToSquared a b).
End Ops.
End V3.

(** ** The component *)

Inductive Status : Set := IDLE | ORBITING | CRASH | ESCAPE.

(** The two callbacks [SimulationScene] receives from its parent. *)
Inductive Callback : Set := onCrash | onEscape.

(** State of [SimulationScene]: two refs and two state cells. *)
Record Scene (N : Type) : Type := mkScene {
  satPos : Vector3 N;
  satVel : Vector3 N;
  trail : list (Vector3 N);
  crashed : bool
}.
Arguments mkScene {N} _ _ _ _.

(** How the [for] loop of [useFrame] ends: it runs to completion, or the
    callback returns from inside it. *)
Inductive LoopEnd : Set := Completed | Returned.

Record LoopResult (N : Type) : Type := mkLoop {
  loopPos : Vector3 N;
  loopVel : Vector3 N;
  loopCalls : list Callback;
  loopEnd : LoopEnd
}.
Arguments mkLoop {N} _ _ _ _.

Section Component.
Context {N : Type} `{Number N}.
Local Open Scope num_scope.

(** Decimal literals of the source with one digit after the point:
    [tenths 1] is [0.1], [tenths 22] is [2.2].  In binary64 the quotient
    of two small integers is correctly rounded, so it is the number the
    literal denotes. *)
Definition tenths (n : Z) : N := ofZ n / ofZ 10.

Definition PLANET_RADIUS : N := ofZ 2.
Definition GM : N := ofZ 20.
Definition INITIAL_RADIUS : N := ofZ 4.

(** Gravity: [satPos.clone().normalize().negate().multiplyScalar(GM / (r * r))]. *)
Definition gravity (pos : Vector3 N) (r : N) : Vector3 N :=
  V3.multiplyScalar (V3.negate (V3.normalize pos)) (GM / (r * r)).

(** [subSteps n dt pos vel]: the remaining [n] iterations of
    [for (let i = 0; i < steps; i++)], with the callbacks invoked on the
    way, in order. *)
Fixpoint subSteps (n : nat) (dt : N) (pos vel : Vector3 N) : LoopResult N :=
  match n with
  | O => mkLoop pos vel [] Completed
  | S n' =>
      let r := V3.length pos in
      if r <? PLANET_RADIUS + tenths 1 then
        mkLoop pos vel [onCrash] Returned
      else
        let calls := if r >? ofZ 60 then [onEscape] else [] in
        let accel := gravity pos r in
        let vel' := V3.add vel (V3.multiplyScalar accel dt) in
        let pos' := V3.add pos (V3.multiplyScalar vel' dt) in
        let rest := subSteps n' dt pos' vel' in
        mkLoop (loopPos rest) (loopVel rest) (calls ++ loopCalls rest) (loopEnd rest)
  end.

(** [prev.slice(-k)]: the last [k] elements. *)
Definition slice_last (k : nat) (prev : list (Vector3 N)) : list (Vector3 N) :=
  skipn (List.length prev - k) prev.

(** The updater passed to [setTrail]. *)
Definition trailUpdate (pos : Vector3 N) (prev : list (Vector3 N)) : list (Vector3 N) :=
  match nth_error prev (List.length prev - 1) with
  | Some last =>
      if V3.distanceTo last pos >? tenths 2
      then slice_last 300 prev ++ [pos]
      else prev
  | None => prev
  end.

Definition steps : nat := 4.

(** The [useFrame] callback: the scene after the tick and the parent
    callbacks it invoked. *)
Definition useFrame (running : bool) (delta : N) (s : Scene N) : Scene N * list Callback :=
  if negb running || crashed s then (s, [])
  else
    let dt := (delta * ofZ 1) / ofZ (Z.of_nat steps) in
    let l := subSteps steps dt (satPos s) (satVel s) in
    match loopEnd l with
    | Returned =>
        (mkScene (loopPos l) (loopVel l) (trail s) true, loopCalls l)
    | Completed =>
        (mkScene (loopPos l) (loopVel l) (trailUpdate (loopPos l) (trail s)) (crashed s),
         loopCalls l)
    end.
End Component.


(** A number or the literal [Infinity] (the real numbers have no infinite
    element, so the literal is a constructor of its own). *)
Inductive Ext (N : Type) : Type :=
| Num (v : N)
| Infinity.
Arguments Num {N} v.
Arguments Infinity {N}.

(** State of [OrbitalLab] together with the scene it renders. *)
Record Lab (N : Type) : Type := mkLab {
  running : bool;
  speed : N;
  angle : N;
  resetCount : Z;
  status : Status;
  scene : Scene N
}.
Arguments mkLab {N} _ _ _ _ _ _.

(** What the host can do to the component. *)
Inductive Action (N : Type) : Type :=
| Tick (delta : N)
| Play
| Reset
| SpeedChange (v : N)
| AngleChange (a : N).
Arguments Tick {N} delta.
Arguments Play {N}.
Arguments Reset {N}.
Arguments SpeedChange {N} v.
Arguments AngleChange {N} a.

(** The value [trajectoryStats] returns. *)
Record Stats (N : Type) : Type := mkStats {
  maxAU : Ext N;
  targetText : string;
  energy : N
}.
Arguments mkStats {N} _ _ _.

Section Lab.
Context {N : Type} `{Number N} `{Trig N}.
Local Open Scope string_scope.
Local Open Scope num_scope.

(** The body of the [useEffect] of [SimulationScene], run on mount and
    whenever [resetTrigger], [initialSpeed] or [angle] changes.  It
    overwrites both refs and both state cells. *)
Definition resetEffect (initialSpeed angle : N) : Scene N :=
  let rads := (angle * Math_PI) / ofZ 180 in
  let vx := Math_sin rads * initialSpeed in
  let vz := nneg (Math_cos rads) * initialSpeed in
  mkScene (Vec3 INITIAL_RADIUS (ofZ 0) (ofZ 0))
          (Vec3 vx (ofZ 0) vz)
          [Vec3 INITIAL_RADIUS (ofZ 0) (ofZ 0)]
          false.

(** [onCrash={() => setStatus('CRASH')}], [onEscape={() => setStatus('ESCAPE')}]. *)
Definition invoke (st : Status) (c : Callback) : Status :=
  match c with
  | onCrash => CRASH
  | onEscape => ESCAPE
  end.

Definition handlePlay (l : Lab N) : Lab N :=
  if running l then l
  else mkLab true (speed l) (angle l) (resetCount l) ORBITING (scene l).

(** [handleReset], followed by the effect of the re-rendered scene: the
    new [resetCount] differs from the old one, so the effect always runs,
    with the speed and angle of that render. *)
Definition handleReset (l : Lab N) : Lab N :=
  mkLab false (speed l) (angle l) (resetCount l + 1)%Z IDLE
        (resetEffect (speed l) (angle l)).

(** The [onChange] handlers of the two sliders: [setSpeed(v); handleReset()]
    and [setAngle(a); handleReset()]. *)
Definition speedChange (v : N) (l : Lab N) : Lab N :=
  handleReset (mkLab (running l) v (angle l) (resetCount l) (status l) (scene l)).

Definition angleChange (a : N) (l : Lab N) : Lab N :=
  handleReset (mkLab (running l) (speed l) a (resetCount l) (status l) (scene l)).

(** One frame of the render loop. *)
Definition tick (delta : N) (l : Lab N) : Lab N :=
  let r := useFrame (running l) delta (scene l) in
  mkLab (running l) (speed l) (angle l) (resetCount l)
        (fold_left invoke (snd r) (status l)) (fst r).

Definition step (l : Lab N) (a : Action N) : Lab N :=
  match a with
  | Tick delta => tick delta l
  | Play => handlePlay l
  | Reset => handleReset l
  | SpeedChange v => speedChange v l
  | AngleChange a => angleChange a l
  end.

Definition run (l : Lab N) (actions : list (Action N)) : Lab N :=
  fold_left step actions l.

(** The component once mounted: the [useState] defaults and the first
    run of the effect. *)
Definition mounted : Lab N :=
  mkLab false (tenths 22) (ofZ 0) 0%Z IDLE (resetEffect (tenths 22) (ofZ 0)).

(** *** The predictor, [trajectoryStats] *)

Definition specificEnergy (v0 : N) : N :=
  (v0 * v0) / ofZ 2 - GM / INITIAL_RADIUS.

Definition angularMomentum (v0 angle : N) : N :=
  let rads := (angle * Math_PI) / ofZ 180 in
  INITIAL_RADIUS * v0 * Math_cos rads.

Definition semiMajorAxis (energy : N) : N :=
  nneg GM / (ofZ 2 * energy).

Definition eccentricity (energy h : N) : N :=
  Math_sqrt (ofZ 1 + (ofZ 2 * energy * h * h) / (GM * GM)).

(** The [if]/[else if] chain on [maxAU]. *)
Definition targetOf (maxAU : N) : string :=
  if maxAU <? tenths 11 then "Low Earth Orbit"
  else if maxAU <? tenths 14 then "High Earth Orbit"
  else if maxAU <? tenths 18 then "Reaching Mars"
  else if maxAU <? ofZ 3 then "Asteroid Belt"
  else if maxAU <? ofZ 6 then "Reaching Jupiter"
  else if maxAU <? ofZ 12 then "Reaching Saturn"
  else if maxAU <? ofZ 25 then "Reaching Uranus"
  else "Reaching Neptune/Pluto".

Definition trajectoryStats (speed angle : N) : Stats N :=
  let E := specificEnergy speed in
  let h := angularMomentum speed angle in
  if E >=? ofZ 0 then
    mkStats Infinity "Interstellar Space (Escape)" E
  else
    let a := semiMajorAxis E in
    let e := eccentricity E h in
    let rMax := a * (ofZ 1 + e) in
    let maxAU := rMax / ofZ 4 in
    mkStats (Num maxAU) (targetOf maxAU) E.

(** *** The classification as the ordered table of the specification *)

Definition bands : list (N * string) :=
  [ (tenths 11, "Low Earth Orbit");
    (tenths 14, "High Earth Orbit");
    (tenths 18, "Reaching Mars");
    (ofZ 3, "Asteroid Belt");
    (ofZ 6, "Reaching Jupiter");
    (ofZ 12, "Reaching Saturn");
    (ofZ 25, "Reaching Uranus") ].

Fixpoint firstMatch (table : list (N * string)) (catchAll : string) (d : N) : string :=
  match table with
  | [] => catchAll
  | (bound, label) :: rest =>
      if d <? bound then label else firstMatch rest catchAll d
  end.
End Lab.

(** ** Vocabulary of the statements *)

Section Vocabulary.
Context {N : Type} `{Number N}.
Local Open Scope num_scope.

(** The two tests a sub-step makes on [r = |satPos|]. *)
Definition crashCheck (pos : Vector3 N) : bool :=
  V3.length pos <? PLANET_RADIUS + tenths 1.

Definition escapeCheck (pos : Vector3 N) : bool :=
  V3.length pos >? ofZ 60.

(** The acceleration a sub-step applies at [pos]. *)
Definition acceleration (pos : Vector3 N) : Vector3 N :=
  gravity pos (V3.length pos).

(** One sub-step of the integrator as the specification words it:
    [velocity += acceleration * sub_dt], then
    [position += velocity * sub_dt] with the velocity just computed. *)
Definition subStep (dt : N) (pv : Vector3 N * Vector3 N) : Vector3 N * Vector3 N :=
  let velocity := V3.add (snd pv) (V3.multiplyScalar (acceleration (fst pv)) dt) in
  let position := V3.add (fst pv) (V3.multiplyScalar velocity dt) in
  (position, velocity).

(** Position and velocity after [k] sub-steps. *)
Definition stateAfter (k : nat) (dt : N) (pv : Vector3 N * Vector3 N) :
  Vector3 N * Vector3 N :=
  Nat.iter k (subStep dt) pv.

(** One [onEscape] for every one of the first [k] sub-steps that starts
    beyond the escape radius. *)
Definition escapeCalls (k : nat) (dt : N) (pv : Vector3 N * Vector3 N) : list Callback :=
  flat_map
    (fun j => if escapeCheck (fst (stateAfter j dt pv)) then [onEscape] else [])
    (seq 0 k).

(** What the loop computes: it performs [k] sub-steps, none of which
    starts inside the impact margin; either [k = n] and the loop
    completes, or the next sub-step starts inside the margin and the
    callback returns there. *)
Inductive LoopOutcome (n : nat) (dt : N) (pv : Vector3 N * Vector3 N)
          (l : LoopResult N) : nat -> Prop :=
| ranAll :
    (forall j, (j < n)%nat -> crashCheck (fst (stateAfter j dt pv)) = false) ->
    l = mkLoop (fst (stateAfter n dt pv)) (snd (stateAfter n dt pv))
               (escapeCalls n dt pv) Completed ->
    LoopOutcome n dt pv l n
| stoppedAt (k : nat) :
    (k < n)%nat ->
    (forall j, (j < k)%nat -> crashCheck (fst (stateAfter j dt pv)) = false) ->
    crashCheck (fst (stateAfter k dt pv)) = true ->
    l = mkLoop (fst (stateAfter k dt pv)) (snd (stateAfter k dt pv))
               (escapeCalls k dt pv ++ [onCrash]) Returned ->
    LoopOutcome n dt pv l k.

(** The sub-step length of a frame of length [delta]. *)
Definition subDt (delta : N) : N := (delta * ofZ 1) / ofZ 4.

Definition Callback_eq_dec (a b : Callback) : {a = b} + {a <> b}.
Proof. decide equality. Defined.

(** How many times a callback was invoked. *)
Definition invocations (c : Callback) (calls : list Callback) : nat :=
  count_occ Callback_eq_dec calls c.

(** The scene after [n] frames of length [delta] while running, and the
    callbacks invoked on the way. *)
Fixpoint frames (n : nat) (delta : N) (s : Scene N) : Scene N * list Callback :=
  match n with
  | O => (s, [])
  | S n' =>
      let r := useFrame true delta s in
      let rest := frames n' delta (fst r) in
      (fst rest, snd r ++ snd rest)
  end.

(** The scene the reset effect leaves for launch angle 0 and launch speed
    [v]: there [Math.sin] gives 0 and [Math.cos] gives 1, so the velocity
    is [(0, 0, -v)]. *)
Definition tangentialLaunch (v : N) : Scene N :=
  mkScene (Vec3 INITIAL_RADIUS (ofZ 0) (ofZ 0))
          (Vec3 (ofZ 0) (ofZ 0) (nneg v))
          [Vec3 INITIAL_RADIUS (ofZ 0) (ofZ 0)]
          false.

(** A frame interval of a sixtieth of a second. *)
Definition sixtieth : N := ofZ 1 / ofZ 60.

(** The lab [n] frames of a sixtieth of a second after a launch at speed
    [v] and angle 0 (one reset, then the launch button). *)
Definition launched (v : N) (n : nat) : Lab N :=
  let r := frames n sixtieth (tangentialLaunch v) in
  mkLab true v (ofZ 0) 1%Z (fold_left invoke (snd r) ORBITING) (fst r).

(** A running lab whose satellite is on the surface of the planet. *)
Definition onSurface : Lab N :=
  mkLab true (ofZ 1) (ofZ 0) 1%Z ORBITING
        (mkScene (Vec3 PLANET_RADIUS (ofZ 0) (ofZ 0))
                 (Vec3 (ofZ 0) (ofZ 0) (nneg (ofZ 1)))
                 [Vec3 INITIAL_RADIUS (ofZ 0) (ofZ 0)]
                 false).

(** A launch speed a little below the circular speed [sqrt 5]: the
    binary64 number [0x1.1e3779b97ecd8p+1], about 2.2360679774989016. *)
Definition nearCircularSpeed : N := ofZ 5035177455119576 / ofZ 2251799813685248.

(** A launch speed of a billionth. *)
Definition creepingSpeed : N := ofZ 1 / ofZ 1000000000.

(** Actions that are neither a reset nor a parameter change. *)
Definition keepsRun (a : Action N) : bool :=
  match a with
  | Tick _ | Play => true
  | Reset | SpeedChange _ | AngleChange _ => false
  end.

(** Actions that leave the launch speed and the launch angle alone. *)
Definition keepsParameters (a : Action N) : bool :=
  match a with
  | Tick _ | Play | Reset => true
  | SpeedChange _ | AngleChange _ => false
  end.

(** How the fields of a [Lab] hang together in every state the component
    can be in: the run is stopped exactly in status [IDLE], the scene is
    crashed exactly in status [CRASH], and the trail has a last point. *)
Definition consistent (l : Lab N) : Prop :=
  (running l = false <-> status l = IDLE) /\
  (crashed (scene l) = true <-> status l = CRASH) /\
  trail (scene l) <> [].

(** The size the trail cannot exceed: [slice(-300)] and one more point. *)
Definition trailCap : nat := 301.

(** What the presentation layer and the operator see of a [Lab]: every
    field but the internal reset counter. *)
Definition visible (l : Lab N) : bool * N * N * Status * Scene N :=
  (running l, speed l, angle l, status l, scene l).
End Vocabulary.

(** ** More of the component: what the formulas and the loop keep *)

Section Quantities.
Context {N : Type} `{Number N} `{Trig N}.
Local Open Scope num_scope.

(** The vector product, as three.js' [crossVectors] computes it. *)
Definition cross (a b : Vector3 N) : Vector3 N :=
  Vec3 (y a * z b - z a * y b) (z a * x b - x a * z b) (x a * y b - y a * x b).

(** The specific angular momentum of the satellite, [satPos x satVel]. *)
Definition momentOf (s : Scene N) : Vector3 N := cross (satPos s) (satVel s).

(** Consecutive points of a trail lie more than 0.2 apart, by the test
    the updater makes. *)
Fixpoint wellSpaced (points : list (Vector3 N)) : Prop :=
  match points with
  | a :: (b :: _) as rest =>
      (V3.distanceTo a b >? tenths 2) = true /\ wellSpaced rest
  | _ => True
  end.

(** [rMax] and [rMin] of [trajectoryStats]: [a * (1 + e)] and
    [a * (1 - e)]. *)
Definition rMax (energy h : N) : N :=
  semiMajorAxis energy * (ofZ 1 + eccentricity energy h).

Definition rMin (energy h : N) : N :=
  semiMajorAxis energy * (ofZ 1 - eccentricity energy h).

(** The launch button: [disabled={running && status !== 'IDLE'}], and the
    grey style it takes when [running]. *)
Definition launchDisabled (l : Lab N) : bool :=
  running l && match status l with IDLE => false | _ => true end.

Definition launchGreyed (l : Lab N) : bool := running l.

(** What every reachable state of the lab satisfies, beyond [consistent]:
    an idle lab shows the launch state of the current speed and angle, a
    crashed satellite lies inside the impact margin, and the trail is well
    spaced. *)
Definition settled (l : Lab N) : Prop :=
  consistent l /\
  (status l = IDLE -> scene l = resetEffect (speed l) (angle l)) /\
  (crashed (scene l) = true -> crashCheck (satPos (scene l)) = true) /\
  wellSpaced (trail (scene l)).
(** The order in which a run passes through the statuses. *)
Definition statusRank (st : Status) : nat :=
  match st with
  | IDLE => 0
  | ORBITING => 1
  | ESCAPE => 2
  | CRASH => 3
  end.

(** The motion stays in the plane [y = 0], the trail with it, and the
    angular momentum is the one the predictor computes from the sliders. *)
Definition inOrbitalPlane (l : Lab N) : Prop :=
  y (satPos (scene l)) = ofZ 0 /\
  y (satVel (scene l)) = ofZ 0 /\
  Forall (fun p => y p = ofZ 0) (trail (scene l)) /\
  momentOf (scene l) = Vec3 (ofZ 0) (angularMomentum (speed l) (angle l)) (ofZ 0).
End Quantities.

(** ** The falling object of the gravity lab (src/components/GravityLab.tsx) *)

(** The refs of [FallingObject]: the elapsed time, the hit flag and the
    height of the mesh. *)
Record FallingObject (N : Type) : Type := mkFalling {
  timeRef : N;
  hitRef : bool;
  positionY : N
}.
Arguments mkFalling {N} _ _ _.

Section GravityLab.
Context {N : Type} `{Number N}.
Local Open Scope num_scope.

Definition DROP_HEIGHT : N := ofZ 10.


(** The [useFrame] callback of a mounted [FallingObject]: the refs after
    the frame and, when [onHit] is invoked, the time it is given. *)
Definition fallFrame (isActive : bool) (g delta : N) (o : FallingObject N) :
  FallingObject N * option N :=
  if isActive && negb (hitRef o) then
    let t := timeRef o + delta in
    let newY := DROP_HEIGHT - (tenths 5 * g * t * t) in
    if nleb newY (tenths 5) then (mkFalling t true (tenths 5), Some t)
    else (mkFalling t false newY, None)
  else (o, None).


(** An active object over a sequence of frames, with the times [onHit]
    was invoked with. *)
Fixpoint fall (g : N) (deltas : list N) (o : FallingObject N) :
  FallingObject N * list N :=
  match deltas with
  | [] => (o, [])
  | delta :: rest =>
      let r := fallFrame true g delta o in
      let after := fall g rest (fst r) in
      (fst after, match snd r with Some t => t :: snd after | None => snd after end)
  end.

End GravityLab.

(** ** [Math.sin] and [Math.cos] in binary64

    ECMAScript leaves the two functions to the engine
    ("implementation-approximated"), so no single definition of them is
    the program's.  What an engine returns at one argument is a binary64
    number at or next to the one nearest to the true value; the
    definitions below let the component run with such numbers supplied. *)

(** [Math.PI], the binary64 number [0x1.921fb54442d18p+1]. *)
Definition pi64 : PrimFloat.float :=
  PrimFloat.div (float_ofZ 7074237752028440) (float_ofZ 2251799813685248).

(** A [Math] whose [sin] returns [s] and whose [cos] returns [c]. *)
Definition mathReturning (s c : PrimFloat.float) : Trig PrimFloat.float := {|
  Math_PI := pi64;
  Math_sin := fun _ => s;
  Math_cos := fun _ => c
|}.

(** The [n] binary64 numbers above [v], and the [n] below. *)
Fixpoint above (n : nat) (v : PrimFloat.float) : list PrimFloat.float :=
  match n with
  | O => []
  | S n' => PrimFloat.next_up v :: above n' (PrimFloat.next_up v)
  end.

Fixpoint below (n : nat) (v : PrimFloat.float) : list PrimFloat.float :=
  match n with
  | O => []
  | S n' => PrimFloat.next_down v :: below n' (PrimFloat.next_down v)
  end.

(** The binary64 numbers within [n] units in the last place of [v]. *)
Definition within (n : nat) (v : PrimFloat.float) : list PrimFloat.float :=
  below n v ++ v :: above n v.

(** The binary64 number [m / 2^e]. *)
Definition dyadic (m e : Z) : PrimFloat.float :=
  PrimFloat.div (float_ofZ m) (float_ofZ (2 ^ e)).

(** For the angles of 0 to 45 degrees: the binary64 numbers nearest to the
    sine and to the cosine of the binary64 argument [angle * Math.PI / 180],
    each as [(m, e)] for [m / 2^e]. *)
Definition sinCosTable : list (Z * (Z * Z) * (Z * Z)) := [
  (0, (0, 0), (1, 0));
  (1, (2515156836085391, 57), (4502913707333573, 52));
  (2, (5029547531033639, 57), (9001712312321383, 53));
  (3, (7542406177081613, 57), (8994855201203741, 53));
  (4, (628310458321445, 53), (4492629085028347, 52));
  (5, (3140116564492417, 55), (4486462071114449, 52));
  (6, (7532069571549035, 56), (4478928437392355, 52));
  (7, (8781611672756947, 56), (8940060957359755, 53));
  (8, (5014239404989977, 55), (4459770905381437, 52));
  (9, (5636145587704693, 55), (2224076421331223, 51));
  (10, (6256334945874825, 55), (8870359658994711, 53));
  (11, (6874618563813967, 55), (4420855817591649, 52));
  (12, (7490808106342645, 55), (68831018284033, 46));
  (13, (8104715876157045, 55), (8776345321375503, 53));
  (14, (8716154871003421, 55), (8739646942591525, 53));
  (15, (291404338770025, 50), (8700286382685973, 53));
  (16, (4965441171787305, 54), (67642778369271, 46));
  (17, (658362550221497, 51), (8613627485215519, 53));
  (18, (5566755282872655, 54), (8566355544790271, 53));
  (19, (5864914476387803, 54), (8516474209481931, 53));
  (20, (6161287160138741, 54), (2115999668407111, 51));
  (21, (1613945764033743, 52), (8408944921786373, 53));
  (22, (6748312458073729, 54), (1043916215482731, 50));
  (23, (3519393129332693, 53), (8291170630002287, 53));
  (24, (457944748548525, 50), (8228485965250453, 53));
  (25, (7613213784381523, 54), (8163294823962471, 53));
  (26, (987124066664633, 51), (4047808531995749, 52));
  (27, (15973370667631, 45), (8025473300638829, 53));
  (28, (8457247820894329, 54), (994110612546785, 50));
  (29, (8733553700348141, 54), (3938936987163875, 52));
  (30, (9007199254740991, 54), (7800463371553963, 53));
  (31, (4639050564493075, 53), (3860338336036207, 52));
  (32, (2386544200937109, 52), (7638538179684677, 53));
  (33, (4905672310290205, 53), (1888518228642807, 51));
  (34, (5036761903398163, 53), (1866826651417513, 51));
  (35, (645789656254767, 50), (7378265682839367, 53));
  (36, (2647149443198255, 52), (910872158600853, 50));
  (37, (2710333914013531, 52), (1798367292726917, 51));
  (38, (693173197715751, 50), (3548884936307177, 52));
  (39, (5668414157257405, 53), (874988565607525, 50));
  (40, (1447429019731335, 51), (6899914937159737, 53));
  (41, (5909254396989395, 53), (849727446066055, 50));
  (42, (753374087364987, 50), (3346826759102305, 52));
  (43, (6142895120489515, 53), (6587448516176259, 53));
  (44, (391057897293617, 49), (6479236913515833, 53));
  (45, (1592262918131443, 51), (6369051672525773, 53))
]%Z.

(** The angles of the slider, -45 to 45 in steps of 1, each with the sine
    and the cosine of the table (the sine of a negative angle is the
    opposite of the sine of the positive one, the cosine is the same). *)
Definition sliderAngles : list (Z * PrimFloat.float * PrimFloat.float) :=
  flat_map (fun row =>
              match row with
              | (k, (sm, se), (cm, ce)) =>
                  if (k =? 0)%Z then [(k, dyadic sm se, dyadic cm ce)]
                  else [(k, dyadic sm se, dyadic cm ce);
                        ((- k)%Z, PrimFloat.opp (dyadic sm se), dyadic cm ce)]
              end)
           sinCosTable.

(** The speeds of the slider, 1.0 to 3.5 in steps of 0.1. *)
Definition sliderSpeeds : list PrimFloat.float :=
  map (fun k => tenths (Z.of_nat k)) (seq 10 26).

(** The sine and cosine at -45 and at 15 degrees, as in the table:
    -0.7071067811865475, 0.7071067811865476, 0.25881904510252074 and
    0.9659258262890683. *)
Definition sinMinus45 : PrimFloat.float := dyadic (-1592262918131443) 51.
Definition cosMinus45 : PrimFloat.float := dyadic 6369051672525773 53.
Definition sin15 : PrimFloat.float := dyadic 291404338770025 50.
Definition cos15 : PrimFloat.float := dyadic 8700286382685973 53.

(** The length of the launch velocity the reset effect sets in binary64,
    when [Math.sin] and [Math.cos] return [s] and [c]. *)
Definition launchSpeed64 (s c speed angle : PrimFloat.float) : PrimFloat.float :=
  V3.length (satVel (@resetEffect PrimFloat.float float_Number (mathReturning s c)
                                  speed angle)).

(** The eccentricity the predictor computes in binary64, when [Math.sin]
    and [Math.cos] return [s] and [c]. *)
Definition eccentricity64 (s c speed angle : PrimFloat.float) : PrimFloat.float :=
  eccentricity (specificEnergy speed)
               (@angularMomentum PrimFloat.float float_Number (mathReturning s c)
                                 speed angle).

(** [|x - y| <= y * 2^-49]: [x] is [y] up to a few units in the last
    place. *)
Definition closeTo (x y : PrimFloat.float) : bool :=
  PrimFloat.leb (PrimFloat.abs (PrimFloat.sub x y))
                (PrimFloat.mul y (dyadic 1 49)).

(** ** The loop of [useFrame] *)

Section LoopFacts.
Context {N : Type} `{Number N}.
Local Open Scope num_scope.

Lemma stateAfter_S (k : nat) (dt : N) (pv : Vector3 N * Vector3 N) :
  stateAfter (S k) dt pv = stateAfter k dt (subStep dt pv).
Proof. unfold stateAfter. apply Nat.iter_succ_r. Qed.

Lemma escapeCalls_S (k : nat) (dt : N) (pv : Vector3 N * Vector3 N) :
  escapeCalls (S k) dt pv =
  (if escapeCheck (fst pv) then [onEscape] else []) ++ escapeCalls k dt (subStep dt pv).
Proof.
  unfold escapeCalls.
  change (seq 0 (S k)) with (0%nat :: seq 1 k).
  rewrite <- seq_shift. cbn [flat_map]. f_equal.
  induction (seq 0 k) as [|j js IH]; cbn [map flat_map]; [reflexivity|].
  rewrite stateAfter_S, IH. reflexivity.
Qed.

(** A sub-step that starts inside the impact margin returns at once. *)
Lemma subSteps_crash (n : nat) (dt : N) (pos vel : Vector3 N) :
  crashCheck pos = true ->
  subSteps (S n) dt pos vel = mkLoop pos vel [onCrash] Returned.
Proof.
  unfold crashCheck. intros Hc. cbn [subSteps]. rewrite Hc. reflexivity.
Qed.

(** A sub-step that starts outside it moves the satellite by [subStep]
    and goes on with the rest of the loop. *)
Lemma subSteps_move (n : nat) (dt : N) (pos vel : Vector3 N) :
  crashCheck pos = false ->
  let next := subStep dt (pos, vel) in
  let rest := subSteps n dt (fst next) (snd next) in
  subSteps (S n) dt pos vel =
  mkLoop (loopPos rest) (loopVel rest)
         ((if escapeCheck pos then [onEscape] else []) ++ loopCalls rest)
         (loopEnd rest).
Proof.
  unfold crashCheck. intros Hc. cbn [subSteps]. rewrite Hc. reflexivity.
Qed.

Lemma subSteps_outcome (n : nat) (dt : N) (pos vel : Vector3 N) :
  exists k, LoopOutcome n dt (pos, vel) (subSteps n dt pos vel) k.
Proof.
  revert pos vel. induction n as [|n IH]; intros pos vel.
  - exists 0%nat. apply ranAll; [intros j Hj; lia | reflexivity].
  - destruct (crashCheck pos) eqn:Hc.
    + exists 0%nat. apply stoppedAt; [lia | intros j Hj; lia | exact Hc |].
      rewrite (subSteps_crash _ _ _ _ Hc). reflexivity.
    + rewrite (subSteps_move _ _ _ _ Hc). cbv zeta.
      destruct (IH (fst (subStep dt (pos, vel))) (snd (subStep dt (pos, vel))))
        as [k Hk].
      rewrite <- surjective_pairing in Hk.
      assert (Hshift : forall m j, (j < S m)%nat ->
                (forall i, (i < m)%nat ->
                   crashCheck (fst (stateAfter i dt (subStep dt (pos, vel)))) = false) ->
                crashCheck (fst (stateAfter j dt (pos, vel))) = false).
      { intros m [|j] Hj Hall; [exact Hc|].
        rewrite stateAfter_S. apply Hall. lia. }
      destruct Hk as [Hall Heq | k Hlt Hall Hcr Heq].
      * exists (S n). apply ranAll.
        -- intros j Hj. apply (Hshift n j Hj Hall).
        -- rewrite Heq. cbn [loopPos loopVel loopCalls loopEnd].
           rewrite !stateAfter_S, escapeCalls_S. reflexivity.
      * exists (S k). apply stoppedAt.
        -- lia.
        -- intros j Hj. apply (Hshift k j Hj Hall).
        -- rewrite stateAfter_S. exact Hcr.
        -- rewrite Heq. cbn [loopPos loopVel loopCalls loopEnd].
           rewrite !stateAfter_S, escapeCalls_S, app_assoc. reflexivity.
Qed.
End LoopFacts.

(** ** Facts about the real-number instance *)

Section RealFacts.
Local Open Scope R_scope.

Lemma Rltb_true (a b : R) : Rltb a b = true <-> a < b.
Proof. unfold Rltb. destruct (Rlt_dec a b); split; intros; (congruence || tauto). Qed.

Lemma Rltb_false (a b : R) : Rltb a b = false <-> b <= a.
Proof.
  unfold Rltb. destruct (Rlt_dec a b); split; intros; try congruence; lra.
Qed.

Lemma Rleb_true (a b : R) : Rleb a b = true <-> a <= b.
Proof. unfold Rleb. destruct (Rle_dec a b); split; intros; (congruence || tauto). Qed.

Lemma Rleb_false (a b : R) : Rleb a b = false <-> b < a.
Proof.
  unfold Rleb. destruct (Rle_dec a b); split; intros; try congruence; lra.
Qed.

Lemma truthy_R (a : R) : a <> 0 -> V3.truthy a = true.
Proof.
  intros Ha. unfold V3.truthy. cbn. unfold Reqb.
  destruct (Req_dec_T a a); [|congruence].
  destruct (Req_dec_T a 0); [contradiction|reflexivity].
Qed.

Lemma length_R (v : Vector3 R) :
  V3.length v = sqrt (x v * x v + y v * y v + z v * z v).
Proof. reflexivity. Qed.

Lemma length_R_nonneg (v : Vector3 R) : 0 <= V3.length v.
Proof. rewrite length_R. apply sqrt_pos. Qed.

Lemma length_R_sqr (v : Vector3 R) :
  V3.length v * V3.length v = x v * x v + y v * y v + z v * z v.
Proof. rewrite length_R. apply sqrt_sqrt. nra. Qed.

(** Outside the impact margin the distance to the centre is at least 2.1. *)
Lemma crashCheck_R_false (pos : Vector3 R) :
  crashCheck pos = false <-> PLANET_RADIUS + tenths 1 <= V3.length pos.
Proof. unfold crashCheck. cbn [nltb R_Number]. apply Rltb_false. Qed.

Lemma crashCheck_R_true (pos : Vector3 R) :
  crashCheck pos = true <-> V3.length pos < PLANET_RADIUS + tenths 1.
Proof. unfold crashCheck. cbn [nltb R_Number]. apply Rltb_true. Qed.

Lemma escapeCheck_R_true (pos : Vector3 R) :
  escapeCheck pos = true <-> 60 < V3.length pos.
Proof. unfold escapeCheck. cbn [nltb R_Number ofZ]. apply Rltb_true. Qed.

(** Away from the centre the acceleration is [-(GM / r^2)] times the unit
    vector [pos / r]. *)
Lemma acceleration_R (pos : Vector3 R) :
  V3.length pos <> 0 ->
  acceleration pos =
  V3.multiplyScalar pos (- (GM / (V3.length pos * V3.length pos) / V3.length pos)).
Proof.
  intros Hr. unfold acceleration, gravity, V3.normalize, V3.or_else.
  rewrite (truthy_R Hr).
  unfold V3.divideScalar, V3.multiplyScalar, V3.negate. cbn.
  f_equal; field; exact Hr.
Qed.

Lemma acceleration_R_length (pos : Vector3 R) :
  0 < V3.length pos ->
  V3.length (acceleration pos) = GM / (V3.length pos * V3.length pos).
Proof.
  intros Hr. rewrite acceleration_R by lra.
  pose proof (length_R_sqr pos) as Hsq.
  remember (V3.length pos) as r eqn:Er. clear Er.
  assert (Hg : 0 < GM / (r * r)).
  { unfold GM. cbn [ofZ R_Number]. apply Rdiv_lt_0_compat; nra. }
  remember (GM / (r * r)) as g eqn:Eg. clear Eg.
  rewrite length_R. unfold V3.multiplyScalar. cbn.
  replace (x pos * - (g / r) * (x pos * - (g / r)) +
           y pos * - (g / r) * (y pos * - (g / r)) +
           z pos * - (g / r) * (z pos * - (g / r)))
    with ((x pos * x pos + y pos * y pos + z pos * z pos) * (g * g) / (r * r))
    by (field; lra).
  rewrite <- Hsq.
  replace (r * r * (g * g) / (r * r)) with (g * g) by (field; lra).
  apply sqrt_square. lra.
Qed.
End RealFacts.

(** ** The frame callback *)

Section FrameFacts.
Context {N : Type} `{Number N}.
Local Open Scope num_scope.

Lemma useFrame_inactive (running : bool) (delta : N) (s : Scene N) :
  running = false \/ crashed s = true ->
  useFrame running delta s = (s, []).
Proof.
  intros [-> | Hc]; unfold useFrame; [reflexivity|].
  rewrite Hc, orb_true_r. reflexivity.
Qed.

Lemma useFrame_active (delta : N) (s : Scene N) :
  crashed s = false ->
  useFrame true delta s =
  let l := subSteps 4 (subDt delta) (satPos s) (satVel s) in
  match loopEnd l with
  | Returned => (mkScene (loopPos l) (loopVel l) (trail s) true, loopCalls l)
  | Completed =>
      (mkScene (loopPos l) (loopVel l) (trailUpdate (loopPos l) (trail s)) false,
       loopCalls l)
  end.
Proof.
  intros Hc. unfold useFrame. rewrite Hc. reflexivity.
Qed.

(** The result of an active frame, read off the outcome of its loop. *)
Lemma useFrame_outcome (delta : N) (s : Scene N) :
  crashed s = false ->
  let pv := (satPos s, satVel s) in
  let dt := subDt delta in
  exists k,
    LoopOutcome 4 dt pv (subSteps 4 dt (satPos s) (satVel s)) k /\
    satPos (fst (useFrame true delta s)) = fst (stateAfter k dt pv) /\
    satVel (fst (useFrame true delta s)) = snd (stateAfter k dt pv) /\
    ((k = 4%nat /\
      crashed (fst (useFrame true delta s)) = false /\
      trail (fst (useFrame true delta s)) =
        trailUpdate (fst (stateAfter 4 dt pv)) (trail s) /\
      snd (useFrame true delta s) = escapeCalls 4 dt pv)
     \/
     ((k < 4)%nat /\
      crashCheck (fst (stateAfter k dt pv)) = true /\
      crashed (fst (useFrame true delta s)) = true /\
      trail (fst (useFrame true delta s)) = trail s /\
      snd (useFrame true delta s) = escapeCalls k dt pv ++ [onCrash])).
Proof.
  intros Hc pv dt. rewrite (useFrame_active delta s Hc). cbv zeta. fold dt.
  destruct (subSteps_outcome 4 dt (satPos s) (satVel s)) as [k Hk].
  exists k. split; [exact Hk|]. fold pv in Hk |- *.
  destruct Hk as [Hall Heq | k Hlt Hall Hcr Heq]; rewrite Heq;
    cbn [loopEnd loopPos loopVel loopCalls fst snd satPos satVel trail crashed].
  - repeat split. left. repeat split.
  - repeat split. right. repeat split; assumption.
Qed.
(** In any arithmetic, binary64 included, an active frame performs [k]
    sub-steps of length [delta * 1 / 4] in a row, each updating the
    velocity first and the position with the new velocity; [k] is 4 exactly
    when the frame ends without a crash, and otherwise the index of the
    first sub-step that starts inside the impact margin. *)
Theorem useFrame_substeps_any_arithmetic (delta : N) (s : Scene N) :
  crashed s = false ->
  let dt := subDt delta in
  let start := (satPos s, satVel s) in
  let out := fst (useFrame true delta s) in
  exists k : nat,
    (k <= 4)%nat /\
    (crashed out = false <-> k = 4%nat) /\
    (satPos out, satVel out) = stateAfter k dt start /\
    (forall j, (j < k)%nat -> crashCheck (fst (stateAfter j dt start)) = false) /\
    ((k < 4)%nat -> crashCheck (fst (stateAfter k dt start)) = true) /\
    (forall j pv, stateAfter (S j) dt pv =
       let pos := fst (stateAfter j dt pv) in
       let vel := snd (stateAfter j dt pv) in
       let velocity := V3.add vel (V3.multiplyScalar (acceleration pos) dt) in
       (V3.add pos (V3.multiplyScalar velocity dt), velocity)).
Proof.
  intros Hc dt start out.
  destruct (useFrame_outcome delta s Hc) as (k & Hk & Hp & Hv & Hcase).
  cbv zeta in Hk, Hp, Hv, Hcase. fold dt start in Hk, Hp, Hv, Hcase.
  fold out in Hp, Hv, Hcase.
  exists k. split; [|split; [|split; [|split; [|split]]]].
  - destruct Hcase as [(-> & _) | (Hlt & _)]; lia.
  - destruct Hcase as [(-> & Hout & _) | (Hlt & _ & Hout & _)].
    + split; [reflexivity | intros _; exact Hout].
    + split; [congruence | lia].
  - rewrite Hp, Hv. symmetry. apply surjective_pairing.
  - destruct Hk as [Hall _ | k _ Hall _ _]; exact Hall.
  - intros Hlt. destruct Hcase as [(-> & _) | (_ & Hat & _)]; [lia | exact Hat].
  - intros j pv. reflexivity.
Qed.
End FrameFacts.

Section FrameReal.
Local Open Scope R_scope.

Lemma subDt_R (delta : R) : subDt delta = delta / 4.
Proof. unfold subDt. cbn. field. Qed.

(** C1.  An active frame (running, not crashed) of length [delta]
    performs [k] consecutive sub-steps, all of the one length [delta / 4].
    It performs exactly four when no sub-step starts inside the impact
    margin, and that is exactly when the frame ends without a crash;
    otherwise [k < 4] is the first sub-step that starts with [r < 2.1],
    where the crash of C2 returns from the loop.  Every sub-step performed
    starts at least 2.1 from the centre, applies an acceleration of
    magnitude [GM / r^2] that points from the satellite to the centre, and
    updates the velocity first and the position with the updated
    velocity. *)
Theorem useFrame_four_symplectic_substeps (delta : R) (s : Scene R) :
  crashed s = false ->
  let dt := delta / 4 in
  let start := (satPos s, satVel s) in
  let out := fst (useFrame true delta s) in
  exists k : nat,
    (k <= 4)%nat /\
    (crashed out = false <-> k = 4%nat) /\
    (satPos out, satVel out) = stateAfter k dt start /\
    ((k < 4)%nat ->
     V3.length (fst (stateAfter k dt start)) < PLANET_RADIUS + tenths 1) /\
    ((forall j, (j < 4)%nat ->
        PLANET_RADIUS + tenths 1 <= V3.length (fst (stateAfter j dt start))) ->
     k = 4%nat) /\
    (forall j, (j < k)%nat ->
       let pos := fst (stateAfter j dt start) in
       let vel := snd (stateAfter j dt start) in
       let r := V3.length pos in
       let velocity := V3.add vel (V3.multiplyScalar (acceleration pos) dt) in
       PLANET_RADIUS + tenths 1 <= r /\
       V3.length (acceleration pos) = GM / (r * r) /\
       acceleration pos = V3.multiplyScalar pos (- (GM / (r * r) / r)) /\
       stateAfter (S j) dt start =
         (V3.add pos (V3.multiplyScalar velocity dt), velocity)).
Proof.
  intros Hc dt start out.
  destruct (useFrame_outcome delta s Hc) as (k & Hk & Hp & Hv & Hcase).
  cbv zeta in Hk, Hp, Hv, Hcase. rewrite subDt_R in Hk, Hp, Hv, Hcase.
  fold dt start in Hk, Hp, Hv, Hcase. fold out in Hp, Hv, Hcase.
  exists k.
  assert (Hall : forall j, (j < k)%nat ->
            crashCheck (fst (stateAfter j dt start)) = false).
  { destruct Hk as [Hall _ | k _ Hall _ _]; exact Hall. }
  assert (Hstop : (k < 4)%nat ->
            V3.length (fst (stateAfter k dt start)) < PLANET_RADIUS + tenths 1).
  { intros Hlt. apply crashCheck_R_true.
    destruct Hcase as [(-> & _) | (_ & Hat & _)]; [lia | exact Hat]. }
  split; [|split; [|split; [|split; [|split]]]].
  - destruct Hcase as [(-> & _) | (Hlt & _)]; lia.
  - destruct Hcase as [(-> & Hout & _) | (Hlt & _ & Hout & _)].
    + split; [reflexivity | intros _; exact Hout].
    + split; [congruence | lia].
  - rewrite Hp, Hv. symmetry. apply surjective_pairing.
  - exact Hstop.
  - intros Hout. destruct (Nat.eq_dec k 4) as [E | Hne]; [exact E|].
    assert (Hlt : (k < 4)%nat).
    { destruct Hcase as [(-> & _) | (Hlt & _)]; [congruence | exact Hlt]. }
    pose proof (Hstop Hlt) as H1. pose proof (Hout k Hlt) as H2. lra.
  - intros j Hj pos vel r velocity.
    pose proof (proj1 (crashCheck_R_false pos) (Hall j Hj)) as Hr.
    fold r in Hr.
    assert (Hpos : 0 < r).
    { unfold PLANET_RADIUS, tenths in Hr. cbn [ofZ nadd ndiv R_Number] in Hr. lra. }
    split; [|split; [|split]].
    + exact Hr.
    + apply acceleration_R_length. exact Hpos.
    + apply acceleration_R. apply Rgt_not_eq. exact Hpos.
    + unfold stateAfter. cbn [Nat.iter]. reflexivity.
Qed.
End FrameReal.

(** ** Callbacks of a frame *)

Section CallbackFacts.
Context {N : Type} `{Number N}.
Local Open Scope num_scope.

Lemma invoke_last (calls : list Callback) (c : Callback) (st : Status) :
  fold_left invoke (calls ++ [c]) st = invoke st c.
Proof. rewrite fold_left_app. destruct c; reflexivity. Qed.

Lemma escapeCalls_all_escape (k : nat) (dt : N) (pv : Vector3 N * Vector3 N) :
  Forall (fun c => c = onEscape) (escapeCalls k dt pv).
Proof.
  unfold escapeCalls. induction (seq 0 k) as [|j js IH]; cbn [flat_map].
  - constructor.
  - apply Forall_app. split; [|exact IH].
    destruct (escapeCheck _); repeat constructor.
Qed.

Lemma invocations_all_escape (calls : list Callback) :
  Forall (fun c => c = onEscape) calls ->
  invocations onCrash calls = 0%nat /\
  invocations onEscape calls = List.length calls.
Proof.
  unfold invocations. induction 1 as [|c cs Hc _ IH]; [split; reflexivity|].
  subst c. cbn [count_occ List.length].
  destruct (Callback_eq_dec onEscape onCrash) as [E|_]; [discriminate E|].
  destruct (Callback_eq_dec onEscape onEscape) as [_|E]; [|congruence].
  destruct IH as [-> ->]. split; reflexivity.
Qed.

(** The number of [onEscape] calls among the first [k] sub-steps is the
    number of those sub-steps that start beyond the escape radius. *)
Lemma escapeCalls_length (k : nat) (dt : N) (pv : Vector3 N * Vector3 N) :
  List.length (escapeCalls k dt pv) =
  List.length (filter (fun j => escapeCheck (fst (stateAfter j dt pv))) (seq 0 k)).
Proof.
  unfold escapeCalls. induction (seq 0 k) as [|j js IH]; cbn [flat_map filter].
  - reflexivity.
  - rewrite length_app, IH. destruct (escapeCheck _); reflexivity.
Qed.

Lemma status_after_escapes (calls : list Callback) (st : Status) :
  Forall (fun c => c = onEscape) calls ->
  calls <> [] ->
  fold_left invoke calls st = ESCAPE.
Proof.
  intros Hall Hne. destruct (exists_last Hne) as (cs & c & ->).
  rewrite invoke_last. apply Forall_app in Hall. destruct Hall as [_ Hc].
  inversion Hc; subst. reflexivity.
Qed.

(** The first sub-step that starts inside the impact margin is where the
    loop stops. *)
Lemma LoopOutcome_first_crash (n k k' : nat) (dt : N)
      (pv : Vector3 N * Vector3 N) (l : LoopResult N) :
  LoopOutcome n dt pv l k' ->
  (k < n)%nat ->
  (forall j, (j < k)%nat -> crashCheck (fst (stateAfter j dt pv)) = false) ->
  crashCheck (fst (stateAfter k dt pv)) = true ->
  k' = k /\
  l = mkLoop (fst (stateAfter k dt pv)) (snd (stateAfter k dt pv))
             (escapeCalls k dt pv ++ [onCrash]) Returned.
Proof.
  intros Hout Hlt Hbefore Hat.
  destruct Hout as [Hall _ | k' Hlt' Hall Hat' Heq].
  - rewrite (Hall k Hlt) in Hat. discriminate.
  - assert (k' = k) as ->.
    { destruct (Nat.lt_trichotomy k' k) as [Hl | [He | Hg]]; [|exact He|].
      - rewrite (Hbefore k' Hl) in Hat'. discriminate.
      - rewrite (Hall k Hg) in Hat. discriminate. }
    split; [reflexivity | exact Heq].
Qed.

(** A loop in which no sub-step starts inside the margin completes. *)
Lemma LoopOutcome_no_crash (n k' : nat) (dt : N)
      (pv : Vector3 N * Vector3 N) (l : LoopResult N) :
  LoopOutcome n dt pv l k' ->
  (forall j, (j < n)%nat -> crashCheck (fst (stateAfter j dt pv)) = false) ->
  l = mkLoop (fst (stateAfter n dt pv)) (snd (stateAfter n dt pv))
             (escapeCalls n dt pv) Completed.
Proof.
  intros Hout Hnone.
  destruct Hout as [_ Heq | k' Hlt' _ Hat' _]; [exact Heq|].
  rewrite (Hnone k' Hlt') in Hat'. discriminate.
Qed.
End CallbackFacts.

(** ** The run controller *)

Section ControllerFacts.
Context {N : Type} `{Number N} `{Trig N}.
Local Open Scope num_scope.

Lemma tick_inactive (delta : N) (l : Lab N) :
  running l = false \/ crashed (scene l) = true ->
  tick delta l = l.
Proof.
  intros Hin. unfold tick. rewrite (useFrame_inactive delta (scene l) Hin).
  destruct l; reflexivity.
Qed.

Lemma handlePlay_running (l : Lab N) : running l = true -> handlePlay l = l.
Proof. intros Hr. unfold handlePlay. rewrite Hr. reflexivity. Qed.

(** Once crashed, frames and the launch button change nothing. *)
Lemma run_crashed (l : Lab N) (actions : list (Action N)) :
  running l = true ->
  crashed (scene l) = true ->
  forallb keepsRun actions = true ->
  run l actions = l.
Proof.
  intros Hr Hc. unfold run. induction actions as [|a actions IH]; intros Hk.
  - reflexivity.
  - cbn [forallb] in Hk. apply andb_prop in Hk. destruct Hk as [Ha Hk].
    cbn [fold_left].
    assert (step l a = l) as ->.
    { destruct a; try discriminate Ha; cbn [step].
      - apply tick_inactive. right. exact Hc.
      - apply handlePlay_running. exact Hr. }
    apply IH. exact Hk.
Qed.

(** C2.  Take an active frame in which sub-step [k] is the first to start
    with [r = |position| < R_body + 0.1].  Then [onCrash] is invoked, once;
    the status becomes [CRASH] and the scene is marked crashed; position
    and velocity are those the satellite had when the test was made (the
    [k] earlier sub-steps of the call, nothing after); the trail is not
    touched; and whatever frames and launch clicks follow, the whole state
    stays as it is: only a reset or a speed or angle change can alter it. *)
Theorem crash_is_terminal (l : Lab N) (delta : N) (k : nat)
        (actions : list (Action N)) :
  running l = true ->
  crashed (scene l) = false ->
  let dt := subDt delta in
  let start := (satPos (scene l), satVel (scene l)) in
  (k < 4)%nat ->
  (forall j, (j < k)%nat -> crashCheck (fst (stateAfter j dt start)) = false) ->
  crashCheck (fst (stateAfter k dt start)) = true ->
  forallb keepsRun actions = true ->
  let l' := tick delta l in
  invocations onCrash (snd (useFrame true delta (scene l))) = 1%nat /\
  status l' = CRASH /\
  crashed (scene l') = true /\
  (satPos (scene l'), satVel (scene l')) = stateAfter k dt start /\
  trail (scene l') = trail (scene l) /\
  run l' actions = l'.
Proof.
  intros Hr Hc dt start Hlt Hbefore Hat Hkeep l'.
  destruct (subSteps_outcome 4 dt (satPos (scene l)) (satVel (scene l))) as [k' Hk'].
  destruct (LoopOutcome_first_crash Hk' Hlt Hbefore Hat) as [_ Heq].
  assert (Hframe : useFrame true delta (scene l) =
            (mkScene (fst (stateAfter k dt start)) (snd (stateAfter k dt start))
                     (trail (scene l)) true,
             escapeCalls k dt start ++ [onCrash])).
  { rewrite (useFrame_active delta (scene l) Hc). cbv zeta. fold dt.
    rewrite Heq. reflexivity. }
  assert (Hl' : l' = mkLab true (speed l) (angle l) (resetCount l) CRASH
                       (mkScene (fst (stateAfter k dt start))
                                (snd (stateAfter k dt start))
                                (trail (scene l)) true)).
  { unfold l', tick. rewrite Hr, Hframe. cbn [fst snd].
    rewrite invoke_last. reflexivity. }
  split; [|split; [|split; [|split; [|split]]]].
  - rewrite Hframe. cbn [snd]. unfold invocations.
    rewrite count_occ_app.
    destruct (invocations_all_escape (escapeCalls_all_escape k dt start)) as [Hz _].
    unfold invocations in Hz. rewrite Hz. reflexivity.
  - rewrite Hl'. reflexivity.
  - rewrite Hl'. reflexivity.
  - rewrite Hl'. cbn [scene satPos satVel]. symmetry. apply surjective_pairing.
  - rewrite Hl'. reflexivity.
  - apply run_crashed; [rewrite Hl'; reflexivity | rewrite Hl'; reflexivity | exact Hkeep].
Qed.
End ControllerFacts.

(** ** Escape detection *)

Section EscapeFacts.
Context {N : Type} `{Number N}.
Local Open Scope num_scope.

(** C3, as the code has it.  In an active frame in which no sub-step
    starts inside the impact margin, [onEscape] is invoked at every
    sub-step that starts with [r > 60] (not only at the first such
    sub-step of the run), and [onCrash] is not invoked.  The only effect
    of the calls is that the status is [ESCAPE] after the frame.  Nothing is
    frozen: all four sub-steps move the satellite, the run stays running
    and the scene stays not crashed, so the next frame integrates again. *)
Theorem escape_reported_at_every_substep (l : Lab N) (delta : N) :
  running l = true ->
  crashed (scene l) = false ->
  let dt := subDt delta in
  let start := (satPos (scene l), satVel (scene l)) in
  (forall j, (j < 4)%nat -> crashCheck (fst (stateAfter j dt start)) = false) ->
  let calls := snd (useFrame true delta (scene l)) in
  let beyond := filter (fun j => escapeCheck (fst (stateAfter j dt start))) (seq 0 4) in
  let l' := tick delta l in
  calls = escapeCalls 4 dt start /\
  invocations onEscape calls = List.length beyond /\
  invocations onCrash calls = 0%nat /\
  status l' = match beyond with [] => status l | _ :: _ => ESCAPE end /\
  running l' = true /\
  crashed (scene l') = false /\
  (satPos (scene l'), satVel (scene l')) = stateAfter 4 dt start.
Proof.
  intros Hr Hc dt start Hnone calls beyond l'.
  destruct (subSteps_outcome 4 dt (satPos (scene l)) (satVel (scene l))) as [k' Hk'].
  pose proof (LoopOutcome_no_crash Hk' Hnone) as Heq.
  assert (Hframe : useFrame true delta (scene l) =
            (mkScene (fst (stateAfter 4 dt start)) (snd (stateAfter 4 dt start))
                     (trailUpdate (fst (stateAfter 4 dt start)) (trail (scene l)))
                     false,
             escapeCalls 4 dt start)).
  { rewrite (useFrame_active delta (scene l) Hc). cbv zeta. fold dt.
    rewrite Heq. reflexivity. }
  assert (Hcalls : calls = escapeCalls 4 dt start).
  { unfold calls. rewrite Hframe. reflexivity. }
  pose proof (escapeCalls_all_escape 4 dt start) as Hall.
  destruct (invocations_all_escape Hall) as [Hzero Hcount].
  assert (Hlen : List.length (escapeCalls 4 dt start) = List.length beyond).
  { apply escapeCalls_length. }
  split; [exact Hcalls|]. rewrite Hcalls.
  split; [rewrite Hcount; exact Hlen|].
  split; [exact Hzero|].
  unfold l', tick. rewrite Hr, Hframe. cbn [fst snd status running scene crashed satPos satVel].
  split; [|split; [reflexivity|split; [reflexivity|]]].
  - destruct beyond as [|b bs].
    + destruct (escapeCalls 4 dt start); [reflexivity | discriminate Hlen].
    + apply status_after_escapes; [exact Hall|].
      intros E. rewrite E in Hlen. discriminate Hlen.
  - symmetry. apply surjective_pairing.
Qed.
End EscapeFacts.

(** ** The trail *)

Section TrailFacts.
Context {N : Type} `{Number N} `{Trig N}.
Local Open Scope num_scope.

Lemma slice_last_length (k : nat) (prev : list (Vector3 N)) :
  List.length (slice_last k prev) = Nat.min k (List.length prev).
Proof. unfold slice_last. rewrite length_skipn. lia. Qed.

(** [slice_last] keeps the newest points, in order, and drops the oldest. *)
Lemma slice_last_suffix (k : nat) (prev : list (Vector3 N)) :
  prev = firstn (List.length prev - k) prev ++ slice_last k prev.
Proof. unfold slice_last. symmetry. apply firstn_skipn. Qed.

Lemma trailUpdate_cases (pos : Vector3 N) (prev : list (Vector3 N)) :
  trailUpdate pos prev = prev \/
  exists older last,
    prev = older ++ [last] /\
    (V3.distanceTo last pos >? tenths 2) = true /\
    trailUpdate pos prev = slice_last 300 prev ++ [pos].
Proof.
  unfold trailUpdate.
  destruct (nth_error prev (List.length prev - 1)) as [last|] eqn:Hn; [|left; reflexivity].
  destruct (V3.distanceTo last pos >? tenths 2) eqn:Hd; [|left; reflexivity].
  right. destruct (@exists_last _ prev) as (older & last' & ->).
  { intros ->. discriminate Hn. }
  exists older, last. rewrite length_app in Hn. cbn [List.length] in Hn.
  replace (List.length older + 1 - 1)%nat with (List.length older) in Hn by lia.
  rewrite nth_error_app2, Nat.sub_diag in Hn by lia.
  cbn in Hn. injection Hn as ->. repeat split. exact Hd.
Qed.

Lemma trailUpdate_length (pos : Vector3 N) (prev : list (Vector3 N)) :
  (List.length prev <= trailCap)%nat ->
  (List.length (trailUpdate pos prev) <= trailCap)%nat.
Proof.
  intros Hle. destruct (trailUpdate_cases pos prev) as [-> | (_ & _ & _ & _ & ->)].
  - exact Hle.
  - rewrite length_app, slice_last_length. cbn [List.length]. unfold trailCap. lia.
Qed.

(** A frame either leaves the trail alone or applies [trailUpdate] with
    the position the sub-steps ended at. *)
Lemma useFrame_trail (running : bool) (delta : N) (s : Scene N) :
  let out := fst (useFrame running delta s) in
  trail out = trail s \/ trail out = trailUpdate (satPos out) (trail s).
Proof.
  unfold useFrame. destruct (negb running || crashed s); [left; reflexivity|].
  destruct (loopEnd _); [right | left]; reflexivity.
Qed.

Lemma resetEffect_trail (v a : N) :
  trail (resetEffect v a) = [Vec3 INITIAL_RADIUS (ofZ 0) (ofZ 0)].
Proof. reflexivity. Qed.

Lemma step_trail_length (l : Lab N) (a : Action N) :
  (List.length (trail (scene l)) <= trailCap)%nat ->
  (List.length (trail (scene (step l a))) <= trailCap)%nat.
Proof.
  intros Hle. destruct a; cbn [step].
  - unfold tick. cbn [scene].
    destruct (useFrame_trail (running l) delta (scene l)) as [-> | ->];
      [exact Hle | apply trailUpdate_length; exact Hle].
  - unfold handlePlay. destruct (running l); exact Hle.
  - cbn. unfold trailCap. lia.
  - cbn. unfold trailCap. lia.
  - cbn. unfold trailCap. lia.
Qed.

(** C9.  The updater run after the sub-steps of a frame appends the new
    position only if the trail has a last point and the new position is
    more than 0.2 away from it; what it then keeps of the old trail is its
    newest 300 points, the oldest being dropped.  A trail of at most 301
    points therefore never grows beyond 301 points, whatever frames,
    launches, resets and parameter changes follow. *)
Theorem trail_sampled_and_bounded (l : Lab N) (actions : list (Action N)) :
  (List.length (trail (scene l)) <= trailCap)%nat ->
  (forall pos prev,
     trailUpdate pos prev = prev \/
     exists older last,
       prev = older ++ [last] /\
       (V3.distanceTo last pos >? tenths 2) = true /\
       trailUpdate pos prev = slice_last 300 prev ++ [pos] /\
       prev = firstn (List.length prev - 300) prev ++ slice_last 300 prev) /\
  (forall running delta s,
     let out := fst (useFrame running delta s) in
     trail out = trail s \/ trail out = trailUpdate (satPos out) (trail s)) /\
  (List.length (trail (scene (run l actions))) <= trailCap)%nat.
Proof.
  intros Hle. split; [|split].
  - intros pos prev.
    destruct (trailUpdate_cases pos prev) as [E | (older & last & E1 & E2 & E3)];
      [left; exact E | right].
    exists older, last. repeat split; try assumption. apply slice_last_suffix.
  - intros running delta s. apply useFrame_trail.
  - revert l Hle. unfold run.
    induction actions as [|a actions IH]; intros l Hle; cbn [fold_left].
    + exact Hle.
    + apply IH. apply step_trail_length. exact Hle.
Qed.
End TrailFacts.

(** ** Reset and parameter changes *)

Section ResetFacts.
Context {N : Type} `{Number N} `{Trig N}.
Local Open Scope num_scope.

Lemma visible_handleReset (l : Lab N) :
  visible (handleReset l) =
  (false, speed l, angle l, IDLE, resetEffect (speed l) (angle l)).
Proof. reflexivity. Qed.

Lemma step_keeps_parameters (l : Lab N) (a : Action N) :
  keepsParameters a = true ->
  speed (step l a) = speed l /\ angle (step l a) = angle l.
Proof.
  destruct a; cbn [keepsParameters step]; intros Hk; try discriminate Hk.
  - split; reflexivity.
  - unfold handlePlay. destruct (running l); split; reflexivity.
  - split; reflexivity.
Qed.

Lemma run_keeps_parameters (l : Lab N) (actions : list (Action N)) :
  forallb keepsParameters actions = true ->
  speed (run l actions) = speed l /\ angle (run l actions) = angle l.
Proof.
  unfold run. revert l. induction actions as [|a actions IH]; intros l Hk.
  - split; reflexivity.
  - cbn [forallb] in Hk. apply andb_prop in Hk. destruct Hk as [Ha Hk].
    cbn [fold_left]. destruct (IH (step l a) Hk) as [-> ->].
    apply step_keeps_parameters. exact Ha.
Qed.

(** C7, as the code has it.  Whatever happened before (frames, launches,
    crashes, escapes, earlier resets; everything but a change of speed or
    angle), a reset leaves the same visible state: not running, status
    [IDLE], the satellite at [(R0, 0, 0)] with the launch velocity of the
    current speed and angle, not crashed, and a trail that holds exactly
    one point, [(R0, 0, 0)].  A second reset changes nothing visible. *)
Theorem reset_restores_launch_state (l : Lab N) (actions : list (Action N)) :
  forallb keepsParameters actions = true ->
  let l' := handleReset (run l actions) in
  visible l' = visible (handleReset l) /\
  visible (handleReset l') = visible l' /\
  running l' = false /\
  status l' = IDLE /\
  satPos (scene l') = Vec3 INITIAL_RADIUS (ofZ 0) (ofZ 0) /\
  satVel (scene l') = satVel (resetEffect (speed l) (angle l)) /\
  crashed (scene l') = false /\
  trail (scene l') = [Vec3 INITIAL_RADIUS (ofZ 0) (ofZ 0)].
Proof.
  intros Hk l'. destruct (run_keeps_parameters l actions Hk) as [Hs Ha].
  unfold l'. rewrite !visible_handleReset. cbn [speed angle handleReset scene].
  rewrite Hs, Ha. repeat split.
Qed.

(** C8, as the code has it.  Moving the speed or the angle slider, in any
    state and so also while the run is not idle, stores the new value and
    resets in the same update: the run stops (frames do nothing until the
    next launch), the status is [IDLE], and the scene is the one the reset
    effect builds from the new value, with the satellite back at
    [(R0, 0, 0)], the launch velocity of the new parameters, the crash
    flag cleared, and a trail that is not empty: the recorded points are
    replaced by the single point [(R0, 0, 0)]. *)
Theorem parameter_change_resets (l : Lab N) (v a delta : N) :
  let fresh := fun v' a' =>
    let rads := (a' * Math_PI) / ofZ 180 in
    mkScene (Vec3 INITIAL_RADIUS (ofZ 0) (ofZ 0))
            (Vec3 (Math_sin rads * v') (ofZ 0) (nneg (Math_cos rads) * v'))
            [Vec3 INITIAL_RADIUS (ofZ 0) (ofZ 0)]
            false in
  visible (speedChange v l) = (false, v, angle l, IDLE, fresh v (angle l)) /\
  visible (angleChange a l) = (false, speed l, a, IDLE, fresh (speed l) a) /\
  visible (speedChange v l) = visible (handleReset (speedChange v l)) /\
  visible (angleChange a l) = visible (handleReset (angleChange a l)) /\
  tick delta (speedChange v l) = speedChange v l /\
  tick delta (angleChange a l) = angleChange a l.
Proof.
  intros fresh.
  assert (Hs : visible (speedChange v l) = (false, v, angle l, IDLE, fresh v (angle l)))
    by reflexivity.
  assert (Ha : visible (angleChange a l) = (false, speed l, a, IDLE, fresh (speed l) a))
    by reflexivity.
  split; [exact Hs|]. split; [exact Ha|].
  split; [rewrite visible_handleReset; reflexivity|].
  split; [rewrite visible_handleReset; reflexivity|].
  split; apply tick_inactive; left; reflexivity.
Qed.
End ResetFacts.

(** ** The predictor over the real numbers *)

Section PredictorReal.
Local Open Scope string_scope.
Local Open Scope R_scope.

Lemma targetOf_firstMatch {N : Type} `{Number N} (d : N) :
  targetOf d = firstMatch bands "Reaching Neptune/Pluto" d.
Proof. reflexivity. Qed.

Lemma targetOf_not_escape {N : Type} `{Number N} (d : N) :
  targetOf d <> "Interstellar Space (Escape)".
Proof.
  unfold targetOf.
  repeat match goal with |- context [if ?b then _ else _] => destruct b end;
    discriminate.
Qed.

Lemma bands_ascending : StronglySorted Rlt (map fst (bands (N:=R))).
Proof.
  unfold bands, tenths. cbn [map fst ofZ ndiv R_Number].
  repeat (constructor; [|repeat (constructor; try lra)]). constructor.
Qed.

Lemma specificEnergy_R (v : R) :
  specificEnergy v = v * v / 2 - GM / INITIAL_RADIUS.
Proof. reflexivity. Qed.

Lemma specificEnergy_R_val (v : R) : specificEnergy v = v * v / 2 - 5.
Proof. unfold specificEnergy, GM, INITIAL_RADIUS. cbn. field. Qed.

Lemma angularMomentum_R (v a : R) :
  angularMomentum v a = 4 * v * cos (a * PI / 180).
Proof. reflexivity. Qed.

Lemma eccentricity_R (E h : R) :
  eccentricity E h = sqrt (1 + 2 * E * h * h / (GM * GM)).
Proof. reflexivity. Qed.

(** C4.  The predictor reports [Infinity] and the escape label exactly
    when the specific energy [E = speed^2/2 - GM/R0] is not negative.
    When [E < 0] it reports the apoapsis [a (1 + e)], with
    [a = -GM / (2 E)], converted to astronomical units (4 units to the
    AU), and the label the first-match lookup of that distance in the
    table [bands] gives, "Reaching Neptune/Pluto" being the catch-all; the
    bounds of the table ascend. *)
Theorem trajectoryStats_classification (speed angle : R) :
  let E := speed * speed / 2 - GM / INITIAL_RADIUS in
  let stats := trajectoryStats speed angle in
  energy stats = E /\
  (0 <= E <->
   maxAU stats = Infinity /\ targetText stats = "Interstellar Space (Escape)") /\
  (0 <= E <-> maxAU stats = Infinity) /\
  (0 <= E <-> targetText stats = "Interstellar Space (Escape)") /\
  (E < 0 ->
   let a := - GM / (2 * E) in
   let e := eccentricity E (angularMomentum speed angle) in
   let apoapsis := a * (1 + e) in
   maxAU stats = Num (apoapsis / 4) /\
   targetText stats = firstMatch bands "Reaching Neptune/Pluto" (apoapsis / 4)) /\
  StronglySorted Rlt (map fst (bands (N:=R))).
Proof.
  intros E stats.
  assert (Hdef : stats =
            if Rleb 0 E then mkStats Infinity "Interstellar Space (Escape)" E
            else mkStats (Num (- GM / (2 * E) *
                               (1 + eccentricity E (angularMomentum speed angle)) / 4))
                         (targetOf (- GM / (2 * E) *
                               (1 + eccentricity E (angularMomentum speed angle)) / 4))
                         E) by reflexivity.
  destruct (Rleb 0 E) eqn:HE; rewrite Hdef; cbn [energy maxAU targetText].
  - apply Rleb_true in HE.
    split; [reflexivity|]. split; [|split; [|split; [|split]]].
    + split; [intros _; split; reflexivity | intros _; exact HE].
    + split; [reflexivity | intros _; exact HE].
    + split; [reflexivity | intros _; exact HE].
    + intros Hneg. lra.
    + exact bands_ascending.
  - apply Rleb_false in HE.
    split; [reflexivity|]. split; [|split; [|split; [|split]]].
    + split; [lra | intros [Hinf _]; discriminate Hinf].
    + split; [lra | intros Hinf; discriminate Hinf].
    + split; [lra | intros Ht; exfalso; exact (targetOf_not_escape _ Ht)].
    + intros _. cbv zeta. split; [reflexivity | apply targetOf_firstMatch].
    + exact bands_ascending.
Qed.
End PredictorReal.

Section EccentricityReal.
Local Open Scope string_scope.
Local Open Scope R_scope.

(** The quantity under the square root, for launch speed [v] and cosine
    [c] of the launch angle. *)
Lemma radicand_R (v c : R) :
  1 + 2 * (v * v / 2 - 5) * (4 * v * c) * (4 * v * c) / (20 * 20) =
  1 - (10 - v * v) * (v * v) * (c * c) / 25.
Proof. field. Qed.

Lemma radicand_bounds (v c : R) :
  v * v < 10 -> -1 <= c <= 1 ->
  0 <= 1 - (10 - v * v) * (v * v) * (c * c) / 25 <= 1.
Proof.
  intros Hv Hc.
  assert (Hu : 0 <= v * v) by nra.
  assert (Hcc : 0 <= c * c <= 1) by nra.
  remember (v * v) as u eqn:Eu. clear Eu.
  remember (c * c) as d eqn:Ed. clear Ed.
  pose proof (Rle_0_sqr (u - 5)) as Hsq. unfold Rsqr in Hsq.
  assert (Hp : 0 <= (10 - u) * u <= 25) by nra.
  remember ((10 - u) * u) as p eqn:Ep. clear Ep.
  assert (Hq : 0 <= p * d <= 25) by nra.
  lra.
Qed.




(** C6.  Speed 2.2 at angle 0: the specific energy is -2.58, the
    eccentricity is 0.032, the apoapsis [a (1 + e)] is the injection
    radius 4, and the predictor reports 1 AU, "Low Earth Orbit" and the
    energy -2.58. *)
Theorem near_circular_injection :
  let speed : R := tenths 22 in
  let angle : R := 0 in
  let E := specificEnergy speed in
  let h := angularMomentum speed angle in
  let e := eccentricity E h in
  let a := semiMajorAxis E in
  E = - (258 / 100) /\
  E < 0 /\
  e = 32 / 1000 /\
  0 <= e <= 5 / 100 /\
  a * (1 + e) = INITIAL_RADIUS /\
  Rabs (a * (1 + e) - 4) <= 1 / 1000000 /\
  trajectoryStats speed angle = mkStats (Num 1) "Low Earth Orbit" (- (258 / 100)).
Proof.
  intros speed angle E h e a.
  assert (HE : E = - (258 / 100)).
  { unfold E, speed. rewrite specificEnergy_R_val. unfold tenths.
    cbn [ofZ ndiv R_Number]. field. }
  assert (Hh : h = 88 / 10).
  { unfold h, speed, angle. rewrite angularMomentum_R.
    replace (0 * PI / 180) with 0 by field. rewrite cos_0.
    unfold tenths. cbn [ofZ ndiv R_Number]. field. }
  assert (He : e = 32 / 1000).
  { unfold e. rewrite eccentricity_R, HE, Hh. unfold GM. cbn [ofZ R_Number].
    replace (1 + 2 * - (258 / 100) * (88 / 10) * (88 / 10) / (20 * 20))
      with ((32 / 1000) * (32 / 1000)) by field.
    apply sqrt_square. lra. }
  assert (Ha : a * (1 + e) = 4).
  { unfold a, semiMajorAxis. cbn [ofZ nneg ndiv nmul R_Number]. rewrite He, HE.
    unfold GM. cbn [ofZ R_Number]. field. }
  split; [exact HE|]. split; [lra|]. split; [exact He|]. split; [lra|].
  split; [exact Ha|]. split.
  { rewrite Ha. replace (4 - 4) with 0 by ring. rewrite Rabs_R0. lra. }
  assert (Hstats : trajectoryStats speed angle =
            if Rleb 0 E then mkStats Infinity "Interstellar Space (Escape)" E
            else mkStats (Num (a * (1 + e) / 4)) (targetOf (a * (1 + e) / 4)) E)
    by reflexivity.
  rewrite Hstats.
  assert (Rleb 0 E = false) as -> by (apply Rleb_false; lra).
  rewrite Ha, HE. replace (4 / 4) with 1 by field.
  f_equal. unfold targetOf. cbn [nltb R_Number].
  assert (Rltb 1 (tenths 11) = true) as ->; [|reflexivity].
  apply Rltb_true. unfold tenths. cbn [ofZ ndiv R_Number]. lra.
Qed.

(** C10, in exact arithmetic.  Over the real numbers, for a launch speed
    that is not negative and any launch angle, the velocity the reset
    effect sets, [(sin t * speed, 0, -cos t * speed)] with
    [t = angle * PI / 180], has length [speed], and the position it sets,
    [(R0, 0, 0)], has length [R0]. *)
Theorem launch_state_magnitudes (speed angle : R) :
  0 <= speed ->
  let s := resetEffect speed angle in
  let t := angle * PI / 180 in
  satVel s = Vec3 (sin t * speed) 0 (- cos t * speed) /\
  V3.length (satVel s) = speed /\
  satPos s = Vec3 INITIAL_RADIUS 0 0 /\
  V3.length (satPos s) = INITIAL_RADIUS.
Proof.
  intros Hs s t.
  split; [reflexivity|]. split; [|split; [reflexivity|]].
  - unfold s. rewrite length_R. cbn.
    fold t.
    replace (sin t * speed * (sin t * speed) + 0 * 0 +
             - cos t * speed * (- cos t * speed))
      with ((Rsqr (sin t) + Rsqr (cos t)) * (speed * speed))
      by (unfold Rsqr; ring).
    rewrite sin2_cos2, Rmult_1_l. apply sqrt_square. exact Hs.
  - unfold s. rewrite length_R. cbn. unfold INITIAL_RADIUS. cbn [ofZ R_Number].
    replace (4 * 4 + 0 * 0 + 0 * 0) with (4 * 4) by ring.
    apply sqrt_square. lra.
Qed.
End EccentricityReal.

(** ** States the component can reach *)

Section Reachable.
Context {N : Type} `{Number N} `{Trig N}.
Local Open Scope num_scope.

Lemma status_after_escapeCalls (k : nat) (dt : N) (pv : Vector3 N * Vector3 N)
      (st : Status) :
  fold_left invoke (escapeCalls k dt pv) st = st \/
  fold_left invoke (escapeCalls k dt pv) st = ESCAPE.
Proof.
  destruct (escapeCalls k dt pv) as [|c cs] eqn:E; [left; reflexivity|].
  right. rewrite <- E. apply status_after_escapes.
  - apply escapeCalls_all_escape.
  - rewrite E. discriminate.
Qed.

Lemma trailUpdate_nonempty (pos : Vector3 N) (prev : list (Vector3 N)) :
  prev <> [] -> trailUpdate pos prev <> [].
Proof.
  intros Hne. destruct (trailUpdate_cases pos prev) as [-> | (_ & _ & _ & _ & ->)].
  - exact Hne.
  - intros E. apply app_eq_nil in E. destruct E as [_ E]. discriminate E.
Qed.

Lemma tick_consistent (delta : N) (l : Lab N) :
  consistent l -> consistent (tick delta l).
Proof.
  intros Hl.
  destruct (running l) eqn:Er.
  2:{ rewrite tick_inactive by (left; exact Er). exact Hl. }
  destruct (crashed (scene l)) eqn:Ec.
  { rewrite tick_inactive by (right; exact Ec). exact Hl. }
  destruct Hl as (Hrun & Hcr & Htr).
  assert (Hidle : status l <> IDLE).
  { intros E. apply Hrun in E. congruence. }
  assert (Hcrash : status l <> CRASH).
  { intros E. apply Hcr in E. congruence. }
  destruct (useFrame_outcome delta (scene l) Ec) as (k & _ & _ & _ & Hcase).
  cbv zeta in Hcase. unfold consistent, tick. rewrite Er.
  cbn [running status scene].
  destruct Hcase as [(_ & Hc' & Ht' & Hcalls) | (_ & _ & Hc' & Ht' & Hcalls)];
    rewrite Hc', Ht', Hcalls.
  - assert (Hst : fold_left invoke
                    (escapeCalls 4 (subDt delta) (satPos (scene l), satVel (scene l)))
                    (status l) <> IDLE /\
                  fold_left invoke
                    (escapeCalls 4 (subDt delta) (satPos (scene l), satVel (scene l)))
                    (status l) <> CRASH).
    { destruct (status_after_escapeCalls 4 (subDt delta)
                  (satPos (scene l), satVel (scene l)) (status l)) as [-> | ->];
        split; congruence. }
    destruct Hst as [Hst1 Hst2].
    split; [|split].
    + split; intros E; [discriminate E | contradiction].
    + split; intros E; [discriminate E | contradiction].
    + apply trailUpdate_nonempty. exact Htr.
  - rewrite invoke_last. cbn [invoke].
    split; [|split].
    + split; intros E; discriminate E.
    + split; reflexivity.
    + exact Htr.
Qed.

Lemma handleReset_consistent (l : Lab N) : consistent (handleReset l).
Proof.
  unfold consistent, handleReset. cbn [running status scene resetEffect crashed trail].
  split; [|split].
  - split; reflexivity.
  - split; intros E; discriminate E.
  - discriminate.
Qed.

Lemma step_consistent (l : Lab N) (a : Action N) :
  consistent l -> consistent (step l a).
Proof.
  intros Hl. destruct a; cbn [step].
  - apply tick_consistent. exact Hl.
  - unfold handlePlay. destruct (running l) eqn:Er; [exact Hl|].
    destruct Hl as (Hrun & Hcr & Htr). unfold consistent. cbn [running status scene].
    assert (Hs : status l = IDLE) by (apply Hrun; exact Er).
    split; [|split].
    + split; intros E; discriminate E.
    + split; intros E; [|discriminate E].
      apply Hcr in E. congruence.
    + exact Htr.
  - apply handleReset_consistent.
  - apply handleReset_consistent.
  - apply handleReset_consistent.
Qed.

(** Whatever the host does after mounting the component, the run is
    stopped exactly when the status is [IDLE], the scene is crashed exactly
    when the status is [CRASH], and the trail keeps a last point (so the
    updater always has something to measure the distance from). *)
Theorem reachable_states_consistent (actions : list (Action N)) :
  consistent (run mounted actions).
Proof.
  assert (Hm : consistent mounted).
  { unfold consistent, mounted.
    cbn [running status scene resetEffect crashed trail].
    split; [|split].
    - split; reflexivity.
    - split; intros E; discriminate E.
    - discriminate. }
  unfold run. revert Hm. generalize (mounted (N:=N)).
  induction actions as [|a actions IH]; intros l Hl; cbn [fold_left].
  - exact Hl.
  - apply IH. apply step_consistent. exact Hl.
Qed.
End Reachable.

(** ** The statements at concrete inputs *)

Section Instances.
Local Open Scope R_scope.

(** The reset effect at angle 0, over the reals, is the tangential launch. *)
Lemma resetEffect_tangential (v : R) : resetEffect v 0 = tangentialLaunch v.
Proof.
  unfold resetEffect, tangentialLaunch. cbn.
  replace (0 * PI / 180) with 0 by field.
  rewrite sin_0, cos_0. f_equal. f_equal; ring.
Qed.

(** C1 at the first frame after a launch at speed 2.2 and angle 0, with a
    frame interval of one second. *)
Lemma useFrame_four_symplectic_substeps_witness :
  let s := tangentialLaunch (N:=R) (tenths 22) in
  crashed s = false /\
  exists k : nat,
    (k <= 4)%nat /\
    (satPos (fst (useFrame true 1 s)), satVel (fst (useFrame true 1 s))) =
    stateAfter k (1 / 4) (satPos s, satVel s).
Proof.
  intros s. split; [reflexivity|].
  destruct (@useFrame_four_symplectic_substeps 1 s eq_refl) as (k & Hk & _ & Hpv & _).
  exists k. split; [exact Hk | exact Hpv].
Defined.

(** A satellite on the surface, [r = 2], is inside the impact margin. *)
Lemma onSurface_crashCheck :
  crashCheck (satPos (scene (onSurface (N:=R)))) = true.
Proof.
  apply crashCheck_R_true. rewrite length_R.
  unfold onSurface, PLANET_RADIUS, tenths. cbn.
  replace (2 * 2 + 0 * 0 + 0 * 0) with (2 * 2) by ring.
  rewrite sqrt_square; lra.
Qed.

(** C2 for a satellite on the surface: the first sub-step of the next frame
    detects the crash, and two more frames and a launch click change
    nothing. *)
Lemma crash_is_terminal_witness :
  let l := onSurface (N:=R) in
  let l' := tick 1 l in
  running l = true /\
  crashed (scene l) = false /\
  crashCheck (satPos (scene l)) = true /\
  status l' = CRASH /\
  crashed (scene l') = true /\
  trail (scene l') = trail (scene l) /\
  run l' [Tick 1; Play; Tick (1 / 60)] = l'.
Proof.
  intros l l'.
  assert (Hnone : forall j, (j < 0)%nat ->
            crashCheck (fst (stateAfter j (subDt 1) (satPos (scene l), satVel (scene l))))
            = false) by (intros j Hj; inversion Hj).
  destruct (@crash_is_terminal R _ _ l 1 0%nat [Tick 1; Play; Tick (1 / 60)]
              eq_refl eq_refl (Nat.lt_0_succ 3) Hnone onSurface_crashCheck eq_refl)
    as (_ & Hst & Hcr & _ & Htr & Hrun).
  repeat split; try assumption. exact onSurface_crashCheck.
Defined.


(** Outside what the speed slider can give: dropped from rest (speed 0)
    the orbit is bound, the angular momentum is zero and the eccentricity
    the predictor computes is 1. *)
Lemma eccentricity_one_at_rest :
  specificEnergy (N:=R) 0 < 0 /\
  eccentricity (specificEnergy 0) (angularMomentum 0 0) = 1 /\
  ~ (0 <= eccentricity (specificEnergy 0) (angularMomentum 0 0) < 1).
Proof.
  assert (HE : specificEnergy (N:=R) 0 < 0).
  { rewrite specificEnergy_R_val. lra. }
  assert (He : eccentricity (specificEnergy 0) (angularMomentum 0 0) = 1).
  { rewrite eccentricity_R, angularMomentum_R.
    replace (1 + 2 * specificEnergy 0 * (4 * 0 * cos (0 * PI / 180)) *
                 (4 * 0 * cos (0 * PI / 180)) / (GM * GM)) with 1.
    - apply sqrt_1.
    - unfold GM. cbn [ofZ R_Number]. field. }
  split; [exact HE|]. split; [exact He|]. rewrite He. lra.
Qed.

(** C7 as amended: a reset after a launch, two frames, a reset and another
    launch gives what a reset right after mounting gives. *)
Lemma reset_restores_launch_state_witness :
  let l := mounted (N:=R) in
  let actions := [Play; Tick (1 / 60); Tick (1 / 60); Reset; Play] in
  forallb keepsParameters actions = true /\
  visible (handleReset (run l actions)) = visible (handleReset l) /\
  trail (scene (handleReset (run l actions))) = [Vec3 4 0 0].
Proof.
  intros l actions. split; [reflexivity|].
  destruct (@reset_restores_launch_state R _ _ l actions eq_refl)
    as (Hv & _ & _ & _ & _ & _ & _ & Ht).
  split; [exact Hv | exact Ht].
Defined.

(** C7 does not hold as stated: after a reset the trail is not of length
    zero, it holds one point. *)
Lemma reset_trail_has_one_point :
  List.length (trail (scene (handleReset (mounted (N:=R))))) = 1%nat /\
  List.length (trail (scene (handleReset (mounted (N:=R))))) <> 0%nat.
Proof. split; [reflexivity | discriminate]. Qed.

(** C8 does not hold as stated: after a launch (the status is [ORBITING],
    the run is not idle) moving the speed slider to 3 or the angle slider
    to 10 leaves a trail that is not cleared, it holds one point. *)
Lemma parameter_change_leaves_one_trail_point :
  let l := run (mounted (N:=R)) [Play] in
  running l = true /\
  status l = ORBITING /\
  status l <> IDLE /\
  trail (scene (speedChange 3 l)) = [Vec3 4 0 0] /\
  trail (scene (speedChange 3 l)) <> [] /\
  List.length (trail (scene (speedChange 3 l))) = 1%nat /\
  trail (scene (angleChange 10 l)) = [Vec3 4 0 0] /\
  trail (scene (angleChange 10 l)) <> [] /\
  List.length (trail (scene (angleChange 10 l))) = 1%nat.
Proof.
  intros l.
  split; [reflexivity|]. split; [reflexivity|]. split; [discriminate|].
  split; [reflexivity|]. split; [discriminate|]. split; [reflexivity|].
  split; [reflexivity|]. split; [discriminate|]. reflexivity.
Qed.

(** C9 from the mounted component, through a launch, a frame, a speed
    change, another launch and a frame of one second. *)
Lemma trail_sampled_and_bounded_witness :
  let l := mounted (N:=R) in
  let actions := [Play; Tick (1 / 60); SpeedChange 3; Play; Tick 1] in
  (List.length (trail (scene l)) <= trailCap)%nat /\
  (List.length (trail (scene (run l actions))) <= trailCap)%nat.
Proof.
  intros l actions.
  assert (Hle : (List.length (trail (scene l)) <= trailCap)%nat).
  { unfold l, trailCap. cbn. lia. }
  split; [exact Hle|].
  exact (proj2 (proj2 (@trail_sampled_and_bounded R _ _ l actions Hle))).
Defined.

(** C10 in exact arithmetic, at speed 2.2 and angle 30 degrees. *)
Lemma launch_state_magnitudes_witness :
  0 <= 22 / 10 /\
  V3.length (satVel (resetEffect (22 / 10) 30)) = 22 / 10 /\
  V3.length (satPos (resetEffect (22 / 10) 30)) = 4.
Proof.
  assert (Hs : 0 <= 22 / 10) by lra.
  split; [exact Hs|].
  destruct (@launch_state_magnitudes (22 / 10) 30 Hs) as (_ & Hv & _ & Hp).
  split; [exact Hv | exact Hp].
Defined.
End Instances.
(** ** Runs in binary64 arithmetic *)

Section FloatRuns.
Local Open Scope num_scope.

(** C3 does not hold as stated.  Launched at speed 3.5 and angle 0 and
    run for 2000 frames of a sixtieth of a second, the satellite passes
    [r = 60] and [onEscape] has been invoked 529 times, not once. *)
Lemma escape_invoked_repeatedly :
  let calls := snd (frames 2000 sixtieth (tangentialLaunch (N:=PrimFloat.float) (tenths 35))) in
  invocations onEscape calls = 529%nat /\
  invocations onEscape calls <> 1%nat.
Proof.
  cbv zeta.
  assert (Hn : invocations onEscape
            (snd (frames 2000 sixtieth (tangentialLaunch (N:=PrimFloat.float) (tenths 35))))
          = 529%nat) by (vm_compute; reflexivity).
  split; [exact Hn | rewrite Hn; discriminate].
Qed.

(** C3 as amended, 2000 frames after a launch at speed 3.5 and angle 0: the
    status is already [ESCAPE], the next frame invokes [onEscape] four more
    times, and the satellite keeps moving outwards. *)
Lemma escape_reported_at_every_substep_witness :
  let l := launched (N:=PrimFloat.float) (tenths 35) 2000 in
  running l = true /\
  crashed (scene l) = false /\
  status l = ESCAPE /\
  invocations onEscape (snd (useFrame true sixtieth (scene l))) = 4%nat /\
  status (tick sixtieth l) = ESCAPE /\
  crashed (scene (tick sixtieth l)) = false /\
  (V3.length (satPos (scene l)) <? V3.length (satPos (scene (tick sixtieth l)))) = true.
Proof.
  intros l.
  assert (Hr : running l = true) by reflexivity.
  assert (Hc : crashed (scene l) = false) by (vm_compute; reflexivity).
  assert (Hnone : forall j, (j < 4)%nat ->
            crashCheck (fst (stateAfter j (subDt sixtieth)
                                        (satPos (scene l), satVel (scene l)))) = false).
  { intros j Hj. destruct j as [|[|[|[|j]]]]; [vm_compute; reflexivity ..|]. lia. }
  pose proof (@escape_reported_at_every_substep PrimFloat.float _ l sixtieth
                Hr Hc Hnone) as Hesc.
  cbv zeta in Hesc. destruct Hesc as (_ & Hcount & _ & Hst & _ & Hcr & _).
  split; [exact Hr|]. split; [exact Hc|].
  split; [vm_compute; reflexivity|].
  split; [rewrite Hcount; vm_compute; reflexivity|].
  split; [rewrite Hst; vm_compute; reflexivity|].
  split; [exact Hcr|].
  vm_compute. reflexivity.
Defined.

(** The first frame after a launch at speed 2.2 and angle 0, in binary64:
    it ends without a crash, so it is four sub-steps. *)
Lemma useFrame_substeps_any_arithmetic_witness :
  let s := tangentialLaunch (N:=PrimFloat.float) (tenths 22) in
  crashed s = false /\
  (satPos (fst (useFrame true sixtieth s)), satVel (fst (useFrame true sixtieth s))) =
  stateAfter 4 (subDt sixtieth) (satPos s, satVel s).
Proof.
  intros s. split; [reflexivity|].
  destruct (@useFrame_substeps_any_arithmetic PrimFloat.float _ sixtieth s eq_refl)
    as (k & _ & Hk & Hpv & _).
  assert (Hk4 : k = 4%nat) by (apply Hk; vm_compute; reflexivity).
  rewrite Hk4 in Hpv. exact Hpv.
Defined.

(** Launched at speed 1 and angle 0 the satellite falls onto the planet:
    after 200 frames the scene is crashed and [onCrash] was invoked once. *)
Example slow_launch_crashes :
  let r := frames 200 sixtieth (tangentialLaunch (N:=PrimFloat.float) (ofZ 1)) in
  crashed (fst r) = true /\
  invocations onCrash (snd r) = 1%nat /\
  invocations onEscape (snd r) = 0%nat.
Proof. vm_compute. repeat split. Qed.

(** On the near-circular orbit of speed 2.2 the trail fills up to its cap
    of 301 points and stays there. *)
Example trail_cap_attained :
  List.length (trail (fst (frames 3000 sixtieth
                             (tangentialLaunch (N:=PrimFloat.float) (tenths 22)))))
  = trailCap /\
  List.length (trail (fst (frames 4500 sixtieth
                             (tangentialLaunch (N:=PrimFloat.float) (tenths 22)))))
  = trailCap.
Proof. vm_compute. split; reflexivity. Qed.

(** C10 does not hold as stated, in the arithmetic of the program.  With
    the sliders at speed 3.5 and angle -45, [Math.sin] gives
    -0.7071067811865475 and [Math.cos] gives 0.7071067811865476, and the
    length of the launch velocity is 3.4999999999999996, below the speed.
    With the sliders at speed 3 and angle 15 the length differs from the
    speed whichever binary64 numbers within 3 units in the last place of
    the nearest ones [Math.sin] and [Math.cos] return.  Over the 26 by 91
    positions of the sliders the length differs from the speed at 458. *)
Lemma launch_speed_not_exact_in_binary64 :
  let speed : PrimFloat.float := tenths 35 in
  let angle : PrimFloat.float := ofZ (-45) in
  let m := launchSpeed64 sinMinus45 cosMinus45 speed angle in
  existsb (fun row =>
             match row with
             | (k, s0, c0) => (k =? -45)%Z && neqb s0 sinMinus45 && neqb c0 cosMinus45
             end) sliderAngles = true /\
  (m <? speed) = true /\
  neqb m speed = false /\
  neqb m (speed - dyadic 1 51) = true /\
  forallb (fun s =>
    forallb (fun c => negb (neqb (launchSpeed64 s c (ofZ 3) (ofZ 15)) (ofZ 3)))
            (within 3 cos15)) (within 3 sin15) = true /\
  List.length
    (filter (fun vr =>
               match vr with
               | (v, (k, s0, c0)) => negb (neqb (launchSpeed64 s0 c0 v (ofZ k)) v)
               end)
            (list_prod sliderSpeeds sliderAngles)) = 458%nat.
Proof. vm_compute. repeat split. Qed.

(** What holds of C10 in binary64: at every position of the two sliders,
    and for each pair of values of [Math.sin] and [Math.cos] within 4
    units in the last place of the nearest ones, the length of the launch
    velocity is the speed up to a relative error of [2^-49]; and the
    length of the launch position [(4, 0, 0)] is exactly [R0 = 4]. *)
Example launch_speed_close_in_binary64 :
  forallb (fun v =>
    forallb (fun row =>
      match row with
      | (k, s0, c0) =>
          forallb (fun s =>
            forallb (fun c => closeTo (launchSpeed64 s c v (ofZ k)) v)
                    (within 4 c0)) (within 4 s0)
      end) sliderAngles) sliderSpeeds = true /\
  neqb (V3.length (satPos (@resetEffect PrimFloat.float _ (mathReturning sin15 cos15)
                                        (ofZ 3) (ofZ 15))))
       INITIAL_RADIUS = true.
Proof. vm_compute. split; reflexivity. Qed.

(** C5 in binary64, at every position of the two sliders: for each of the
    26 speeds and 91 angles, and for each value of [Math.cos] within 4
    units in the last place of the nearest one, a negative energy comes
    with an eccentricity in [[0, 1)].  The energy is negative at 22 of
    the 26 speeds. *)
Example eccentricity_range_on_sliders_binary64 :
  forallb (fun v =>
    forallb (fun row =>
      match row with
      | (k, s0, c0) =>
          forallb (fun c =>
            let e := eccentricity64 s0 c v (ofZ k) in
            implb (specificEnergy v <? ofZ 0) (nleb (ofZ 0) e && (e <? ofZ 1)))
            (within 4 c0)
      end) sliderAngles) sliderSpeeds = true /\
  List.length sliderSpeeds = 26%nat /\
  List.length sliderAngles = 91%nat /\
  List.length (filter (fun v => specificEnergy v <? ofZ 0) sliderSpeeds) = 22%nat.
Proof. vm_compute. repeat split. Qed.

(** The predictor applies no clamp, and between the positions of the
    speed slider binary64 rounding shows.  At launch angle 0, where
    [Math.cos] gives 1 and the angular momentum is [R0 * speed * 1]: for
    the speed 2.2360679774989016, which lies between the slider positions
    2.2 and 2.3 and just below the circular speed, the energy is negative
    and the quantity under the square root rounds to a negative number, so
    the eccentricity is NaN (it is not equal to itself); for a speed of a
    billionth the eccentricity is exactly 1. *)
Example eccentricity_binary64_edges :
  let v : PrimFloat.float := nearCircularSpeed in
  let w : PrimFloat.float := creepingSpeed in
  let e := fun speed => eccentricity (specificEnergy speed) (INITIAL_RADIUS * speed * ofZ 1) in
  (ofZ 1 <? v) = true /\ (v <? tenths 35) = true /\
  (specificEnergy v <? ofZ 0) = true /\
  neqb (e v) (e v) = false /\
  (ofZ 0 <? w) = true /\
  (specificEnergy w <? ofZ 0) = true /\
  neqb (e w) (ofZ 1) = true.
Proof. vm_compute. repeat split. Qed.
End FloatRuns.

(** ** What every reachable state keeps, in any arithmetic *)

Section Settled.
Context {N : Type} `{Number N} `{Trig N}.
Local Open Scope num_scope.

Lemma wellSpaced_tail (a : Vector3 N) (points : list (Vector3 N)) :
  wellSpaced (a :: points) -> wellSpaced points.
Proof. destruct points as [|b rest]; cbn; [trivial | intros [_ Hr]; exact Hr]. Qed.

Lemma wellSpaced_skipn (n : nat) (points : list (Vector3 N)) :
  wellSpaced points -> wellSpaced (skipn n points).
Proof.
  revert points. induction n as [|n IH]; intros points Hw; [exact Hw|].
  destruct points as [|a rest]; [exact Hw|].
  cbn [skipn]. apply IH. exact (wellSpaced_tail _ _ Hw).
Qed.

Lemma wellSpaced_snoc (points : list (Vector3 N)) (a b : Vector3 N) :
  wellSpaced (points ++ [a]) ->
  (V3.distanceTo a b >? tenths 2) = true ->
  wellSpaced ((points ++ [a]) ++ [b]).
Proof.
  intros Hw Hd. induction points as [|c rest IH].
  - cbn. split; [exact Hd | trivial].
  - destruct rest as [|d rest].
    + cbn in Hw |- *. destruct Hw as [Hca _]. repeat split; assumption.
    + cbn [app] in Hw, IH |- *. cbn [wellSpaced] in Hw |- *.
      destruct Hw as [Hcd Hw]. split; [exact Hcd|]. apply IH. exact Hw.
Qed.

Lemma trailUpdate_wellSpaced (pos : Vector3 N) (prev : list (Vector3 N)) :
  wellSpaced prev -> wellSpaced (trailUpdate pos prev).
Proof.
  intros Hw.
  destruct (trailUpdate_cases pos prev) as [-> | (older & last & Hprev & Hd & ->)];
    [exact Hw|].
  assert (Hslice : slice_last 300 prev =
                   skipn (List.length prev - 300) older ++ [last]).
  { unfold slice_last. rewrite Hprev at 2. rewrite skipn_app.
    replace (List.length prev - 300 - List.length older)%nat with 0%nat.
    - reflexivity.
    - rewrite Hprev, length_app. cbn [List.length]. lia. }
  pose proof (wellSpaced_skipn (List.length prev - 300) _ Hw) as Hs.
  fold (slice_last 300 prev) in Hs. rewrite Hslice in Hs |- *.
  apply wellSpaced_snoc; assumption.
Qed.

Lemma handleReset_settled (l : Lab N) : settled (handleReset l).
Proof.
  split; [apply handleReset_consistent|].
  split; [intros _; reflexivity|].
  split; [intros E; discriminate E | exact I].
Qed.

Lemma tick_settled (delta : N) (l : Lab N) :
  settled l -> settled (tick delta l).
Proof.
  intros Hl. pose proof Hl as (Hcons & Hidle & Hcrash & Hspaced).
  pose proof (tick_consistent delta Hcons) as Hcons'.
  destruct (running l) eqn:Er.
  2:{ rewrite tick_inactive by (left; exact Er). exact Hl. }
  destruct (crashed (scene l)) eqn:Ec.
  { rewrite tick_inactive by (right; exact Ec). exact Hl. }
  split; [exact Hcons'|]. split; [|split].
  - intros Hs. destruct Hcons' as (Hrun' & _ & _).
    apply Hrun' in Hs. unfold tick in Hs. cbn [running] in Hs. congruence.
  - destruct (useFrame_outcome delta (scene l) Ec) as (k & _ & Hp & _ & Hcase).
    cbv zeta in Hp, Hcase. unfold tick. rewrite Er. cbn [scene].
    intros Hc'. rewrite Hp.
    destruct Hcase as [(_ & Hno & _) | (_ & Hat & _)]; [congruence | exact Hat].
  - unfold tick. cbn [scene].
    destruct (useFrame_trail (running l) delta (scene l)) as [-> | ->];
      [exact Hspaced | apply trailUpdate_wellSpaced; exact Hspaced].
Qed.

Lemma step_settled (l : Lab N) (a : Action N) :
  settled l -> settled (step l a).
Proof.
  intros Hl. destruct a; cbn [step].
  - apply tick_settled. exact Hl.
  - pose proof (step_consistent Play (proj1 Hl)) as Hcons'. cbn [step] in Hcons'.
    pose proof Hl as (Hcons & Hidle & Hcrash & Hspaced).
    unfold handlePlay in *. destruct (running l) eqn:Er.
    + exact Hl.
    + split; [exact Hcons'|]. cbn [status scene]. split; [|split].
      * intros E. discriminate E.
      * exact Hcrash.
      * exact Hspaced.
  - apply handleReset_settled.
  - apply handleReset_settled.
  - apply handleReset_settled.
Qed.

Lemma run_settled (l : Lab N) (actions : list (Action N)) :
  settled l -> settled (run l actions).
Proof.
  unfold run. revert l. induction actions as [|a actions IH]; intros l Hl.
  - exact Hl.
  - cbn [fold_left]. apply IH. apply step_settled. exact Hl.
Qed.

Lemma mounted_settled : settled (mounted (N:=N)).
Proof.
  split; [|split; [intros _; reflexivity | split; [intros E; discriminate E | exact I]]].
  unfold consistent, mounted. cbn [running status scene resetEffect crashed trail].
  split; [|split].
  - split; reflexivity.
  - split; intros E; discriminate E.
  - discriminate.
Qed.

(** Whenever the lab is idle, the scene is the launch state of the speed
    and angle the sliders show; the launch button is disabled exactly when
    it is drawn grey, which is exactly when the lab is not idle; and a
    launch from an idle lab starts the run from that launch state, keeping
    the parameters. *)
Theorem launch_starts_from_current_parameters (actions : list (Action N)) :
  let l := run mounted actions in
  (launchDisabled l = launchGreyed l) /\
  (launchDisabled l = false <-> status l = IDLE) /\
  (status l = IDLE ->
   scene l = resetEffect (speed l) (angle l) /\
   handlePlay l = mkLab true (speed l) (angle l) (resetCount l) ORBITING
                        (resetEffect (speed l) (angle l))).
Proof.
  intros l.
  destruct (run_settled actions mounted_settled) as ((Hrun & _ & _) & Hidle & _ & _).
  fold l in Hrun, Hidle.
  assert (Hdis : launchDisabled l = launchGreyed l).
  { unfold launchDisabled, launchGreyed.
    destruct (running l) eqn:Er; [|reflexivity].
    destruct (status l) eqn:Es; try reflexivity.
    assert (true = false) by (apply Hrun; reflexivity). discriminate. }
  split; [exact Hdis|]. split.
  - rewrite Hdis. unfold launchGreyed. exact Hrun.
  - intros Hs. split; [apply Hidle; exact Hs|].
    unfold handlePlay. rewrite (proj2 Hrun Hs), (Hidle Hs). reflexivity.
Qed.

(** A crashed satellite always lies inside the impact margin: the
    position a crash freezes is the one at which the test
    [r < PLANET_RADIUS + 0.1] succeeded; and the scene is crashed exactly
    when the status shown is [CRASH]. *)
Theorem crashed_satellite_inside_margin (actions : list (Action N)) :
  let l := run mounted actions in
  (crashed (scene l) = true -> crashCheck (satPos (scene l)) = true) /\
  (crashed (scene l) = true <-> status l = CRASH).
Proof.
  intros l.
  destruct (run_settled actions mounted_settled) as ((_ & Hcr & _) & _ & Hin & _).
  split; [exact Hin | exact Hcr].
Qed.

(** The trail never holds two consecutive points that are 0.2 or less
    apart by the updater's own test: the sampling threshold holds along
    the whole recorded trail, not only for the newest point. *)
Theorem trail_points_well_spaced (actions : list (Action N)) :
  wellSpaced (trail (scene (run mounted actions))).
Proof.
  destruct (run_settled actions mounted_settled) as (_ & _ & _ & Hw). exact Hw.
Qed.
End Settled.

(** ** Angular momentum and the orbital plane, over the reals *)

Section Conservation.
Local Open Scope R_scope.

(** The acceleration is always a multiple of the position. *)
Lemma acceleration_parallel (pos : Vector3 R) :
  exists k : R, acceleration pos = V3.multiplyScalar pos k.
Proof.
  exists (- (1 / V3.or_else (V3.length pos) 1 * (GM / (V3.length pos * V3.length pos)))).
  unfold acceleration, gravity, V3.normalize, V3.divideScalar, V3.negate,
    V3.multiplyScalar.
  cbn. f_equal; ring.
Qed.

Lemma subStep_cross (dt : R) (pv : Vector3 R * Vector3 R) :
  cross (fst (subStep dt pv)) (snd (subStep dt pv)) = cross (fst pv) (snd pv).
Proof.
  destruct (acceleration_parallel (fst pv)) as [k Hk].
  unfold subStep. cbn [fst snd]. rewrite Hk.
  unfold cross, V3.add, V3.multiplyScalar. cbn. f_equal; ring.
Qed.

Lemma stateAfter_cross (k : nat) (dt : R) (pv : Vector3 R * Vector3 R) :
  cross (fst (stateAfter k dt pv)) (snd (stateAfter k dt pv)) = cross (fst pv) (snd pv).
Proof.
  revert pv. induction k as [|k IH]; intros pv; [reflexivity|].
  rewrite stateAfter_S, IH. apply subStep_cross.
Qed.

Lemma subStep_plane (dt : R) (pv : Vector3 R * Vector3 R) :
  y (fst pv) = 0 -> y (snd pv) = 0 ->
  y (fst (subStep dt pv)) = 0 /\ y (snd (subStep dt pv)) = 0.
Proof.
  intros Hp Hv. destruct (acceleration_parallel (fst pv)) as [k Hk].
  unfold subStep. cbn [fst snd]. rewrite Hk.
  unfold V3.add, V3.multiplyScalar. cbn. rewrite Hp, Hv. split; ring.
Qed.

Lemma stateAfter_plane (k : nat) (dt : R) (pv : Vector3 R * Vector3 R) :
  y (fst pv) = 0 -> y (snd pv) = 0 ->
  y (fst (stateAfter k dt pv)) = 0 /\ y (snd (stateAfter k dt pv)) = 0.
Proof.
  revert pv. induction k as [|k IH]; intros pv Hp Hv; [split; assumption|].
  rewrite stateAfter_S. destruct (subStep_plane dt pv Hp Hv) as [Hp' Hv'].
  apply IH; assumption.
Qed.

(** What a frame ends with is what some number of sub-steps gives. *)
Lemma useFrame_stateAfter (running : bool) (delta : R) (s : Scene R) :
  exists k : nat,
    satPos (fst (useFrame running delta s)) =
      fst (stateAfter k (subDt delta) (satPos s, satVel s)) /\
    satVel (fst (useFrame running delta s)) =
      snd (stateAfter k (subDt delta) (satPos s, satVel s)).
Proof.
  destruct running.
  2:{ exists 0%nat. rewrite useFrame_inactive by (left; reflexivity).
      split; reflexivity. }
  destruct (crashed s) eqn:Ec.
  { exists 0%nat. rewrite useFrame_inactive by (right; exact Ec).
    split; reflexivity. }
  destruct (useFrame_outcome delta s Ec) as (k & _ & Hp & Hv & _).
  exists k. split; [exact Hp | exact Hv].
Qed.

Lemma useFrame_momentOf (running : bool) (delta : R) (s : Scene R) :
  momentOf (fst (useFrame running delta s)) = momentOf s.
Proof.
  destruct (useFrame_stateAfter running delta s) as (k & Hp & Hv).
  unfold momentOf. rewrite Hp, Hv. apply stateAfter_cross.
Qed.

Lemma trailUpdate_Forall (P : Vector3 R -> Prop) (pos : Vector3 R)
      (prev : list (Vector3 R)) :
  Forall P prev -> P pos -> Forall P (trailUpdate pos prev).
Proof.
  intros Hprev Hpos.
  destruct (trailUpdate_cases pos prev) as [-> | (_ & _ & _ & _ & ->)];
    [exact Hprev|].
  apply Forall_app. split; [|repeat constructor; exact Hpos].
  rewrite (slice_last_suffix 300 prev) in Hprev.
  apply Forall_app in Hprev. exact (proj2 Hprev).
Qed.

Lemma handleReset_inOrbitalPlane (l : Lab R) : inOrbitalPlane (handleReset l).
Proof.
  unfold inOrbitalPlane, handleReset, momentOf, cross, angularMomentum, resetEffect.
  cbn. repeat split.
  - repeat constructor.
  - f_equal; ring.
Qed.

Lemma tick_inOrbitalPlane (delta : R) (l : Lab R) :
  inOrbitalPlane l -> inOrbitalPlane (tick delta l).
Proof.
  intros (Hp & Hv & Ht & Hm).
  destruct (useFrame_stateAfter (running l) delta (scene l)) as (k & Ek & Ev).
  destruct (stateAfter_plane k (subDt delta) (satPos (scene l), satVel (scene l)) Hp Hv)
    as [Hp' Hv'].
  unfold inOrbitalPlane, tick. cbn [scene speed angle].
  split; [rewrite Ek; exact Hp'|]. split; [rewrite Ev; exact Hv'|]. split.
  - destruct (useFrame_trail (running l) delta (scene l)) as [-> | ->];
      [exact Ht|].
    apply trailUpdate_Forall; [exact Ht | rewrite Ek; exact Hp'].
  - rewrite useFrame_momentOf. exact Hm.
Qed.

Lemma step_inOrbitalPlane (l : Lab R) (a : Action R) :
  inOrbitalPlane l -> inOrbitalPlane (step l a).
Proof.
  intros Hl. destruct a; cbn [step].
  - apply tick_inOrbitalPlane. exact Hl.
  - unfold handlePlay. destruct (running l); exact Hl.
  - apply handleReset_inOrbitalPlane.
  - apply handleReset_inOrbitalPlane.
  - apply handleReset_inOrbitalPlane.
Qed.

(** Between resets the angular momentum [satPos x satVel] is conserved
    exactly: frames of any length, whether they move the satellite four
    times, stop at a crash or do nothing, and launch clicks leave it as it
    was, from any state of the lab. *)
Theorem angular_momentum_conserved_between_resets (l : Lab R)
        (actions : list (Action R)) :
  forallb keepsRun actions = true ->
  momentOf (scene (run l actions)) = momentOf (scene l).
Proof.
  unfold run. revert l. induction actions as [|a actions IH]; intros l Hk.
  - reflexivity.
  - cbn [forallb] in Hk. apply andb_prop in Hk. destruct Hk as [Ha Hk].
    cbn [fold_left]. rewrite (IH (step l a) Hk).
    destruct a; try discriminate Ha; cbn [step].
    + unfold tick. cbn [scene]. apply useFrame_momentOf.
    + unfold handlePlay. destruct (running l); reflexivity.
Qed.

(** In every state the lab can reach, the satellite and its velocity lie
    in the plane [y = 0], so does every point of the trail, and the angular
    momentum of the satellite is [(0, h, 0)] with [h] the angular momentum
    [R0 * speed * cos(angle)] that the predictor computes from the current
    sliders: integrator and predictor agree on it at all times. *)
Theorem orbit_planar_with_predicted_momentum (actions : list (Action R)) :
  let l := run mounted actions in
  y (satPos (scene l)) = 0 /\
  y (satVel (scene l)) = 0 /\
  Forall (fun p => y p = 0) (trail (scene l)) /\
  cross (satPos (scene l)) (satVel (scene l)) =
    Vec3 0 (angularMomentum (speed l) (angle l)) 0.
Proof.
  change (inOrbitalPlane (run (mounted (N:=R)) actions)).
  assert (Hm : inOrbitalPlane (mounted (N:=R))).
  { unfold inOrbitalPlane, mounted, momentOf, cross, angularMomentum, resetEffect.
    cbn. repeat split.
    - repeat constructor.
    - f_equal; ring. }
  unfold run. revert Hm. generalize (mounted (N:=R)).
  induction actions as [|a actions IH]; intros l Hl; cbn [fold_left].
  - exact Hl.
  - apply IH. apply step_inOrbitalPlane. exact Hl.
Qed.
(** The state a reset builds has exactly the specific energy and the
    angular momentum the predictor works with, for every speed and angle:
    [|v|^2 / 2 - GM / |r|] is [specificEnergy speed], and [r x v] is
    [(0, angularMomentum speed angle, 0)]. *)
Theorem launch_state_matches_prediction (speed angle : R) :
  let s := resetEffect speed angle in
  let v := satVel s in
  (x v * x v + y v * y v + z v * z v) / 2 - GM / V3.length (satPos s) =
    specificEnergy speed /\
  cross (satPos s) v = Vec3 0 (angularMomentum speed angle) 0.
Proof.
  intros s v. split.
  - assert (Hr : V3.length (satPos s) = INITIAL_RADIUS).
    { unfold s. rewrite length_R. cbn. unfold INITIAL_RADIUS. cbn [ofZ R_Number].
      replace (4 * 4 + 0 * 0 + 0 * 0) with (4 * 4) by ring.
      apply sqrt_square. lra. }
    rewrite Hr. unfold specificEnergy. cbn [nsub ndiv nmul ofZ R_Number].
    f_equal. f_equal. unfold v, s. cbn.
    set (t := angle * PI / 180).
    replace (sin t * speed * (sin t * speed) + 0 * 0 +
             - cos t * speed * (- cos t * speed))
      with ((Rsqr (sin t) + Rsqr (cos t)) * (speed * speed))
      by (unfold Rsqr; ring).
    rewrite sin2_cos2. ring.
  - unfold v, s, cross, angularMomentum, resetEffect. cbn. f_equal; ring.
Qed.
End Conservation.

(** ** More about the predictor, over the reals *)

Section PredictorMore.
Local Open Scope string_scope.
Local Open Scope R_scope.

Lemma semiMajorAxis_R (v : R) :
  v * v < 10 -> semiMajorAxis (specificEnergy v) = 20 / (10 - v * v).
Proof.
  intros Hv. rewrite specificEnergy_R_val. unfold semiMajorAxis, GM.
  cbn [ofZ nneg ndiv nmul R_Number]. field. lra.
Qed.

Lemma eccentricity_val (v a : R) :
  eccentricity (specificEnergy v) (angularMomentum v a) =
  sqrt (1 - (10 - v * v) * (v * v) * (cos (a * PI / 180) * cos (a * PI / 180)) / 25).
Proof.
  rewrite eccentricity_R, angularMomentum_R, specificEnergy_R_val.
  unfold GM. cbn [ofZ R_Number]. f_equal. apply radicand_R.
Qed.

(** For a bound orbit the eccentricity is at least [|1 - v^2 / 5|]. *)
Lemma eccentricity_lower (v a : R) :
  v * v < 10 ->
  let e := eccentricity (specificEnergy v) (angularMomentum v a) in
  0 <= e /\ 1 - v * v / 5 <= e /\ v * v / 5 - 1 <= e.
Proof.
  intros Hv e.
  set (c := cos (a * PI / 180)).
  assert (Hc : -1 <= c <= 1) by apply COS_bound.
  pose proof (radicand_bounds Hv Hc) as [Hlo _].
  assert (He : e = sqrt (1 - (10 - v * v) * (v * v) * (c * c) / 25))
    by apply eccentricity_val.
  assert (He0 : 0 <= e) by (rewrite He; apply sqrt_pos).
  assert (Hsq : e * e = 1 - (10 - v * v) * (v * v) * (c * c) / 25)
    by (rewrite He; apply sqrt_sqrt; exact Hlo).
  assert (Hu : 0 <= v * v) by nra.
  assert (Hcc : 0 <= c * c <= 1) by nra.
  remember (v * v) as u eqn:Eu. clear Eu.
  remember (c * c) as d eqn:Ed. clear Ed.
  assert (Hge : (1 - u / 5) * (1 - u / 5) <= e * e).
  { rewrite Hsq.
    replace ((1 - u / 5) * (1 - u / 5)) with (1 - (10 - u) * u / 25) by field.
    assert (0 <= (10 - u) * u) by nra.
    assert ((10 - u) * u * d <= (10 - u) * u) by nra.
    lra. }
  split; [exact He0|]. split; nra.
Qed.

(** For every bound orbit the launch radius lies between the periapsis
    [rMin] and the apoapsis [rMax] that [trajectoryStats] computes, the two
    add up to the major axis, and the aphelion the panel reports is
    therefore never below 1 AU. *)
Theorem launch_radius_between_apsides (speed angle : R) :
  let E := specificEnergy speed in
  let h := angularMomentum speed angle in
  E < 0 ->
  0 <= rMin E h <= INITIAL_RADIUS /\
  INITIAL_RADIUS <= rMax E h /\
  rMin E h + rMax E h = 2 * semiMajorAxis E /\
  maxAU (trajectoryStats speed angle) = Num (rMax E h / 4) /\
  1 <= rMax E h / 4.
Proof.
  intros E h HE.
  assert (Hv : speed * speed < 10).
  { unfold E in HE. rewrite specificEnergy_R_val in HE. lra. }
  destruct (eccentricity_lower angle Hv) as (He0 & He1 & He2).
  assert (He3 : eccentricity E h <= 1).
  { unfold E, h. rewrite eccentricity_val.
    set (c := cos (angle * PI / 180)).
    assert (Hc : -1 <= c <= 1) by apply COS_bound.
    pose proof (radicand_bounds Hv Hc) as [_ Hhi].
    apply Rle_trans with (sqrt 1); [apply sqrt_le_1_alt; exact Hhi|].
    rewrite sqrt_1. lra. }
  fold E h in He0, He1, He2.
  assert (Ha : semiMajorAxis E = 20 / (10 - speed * speed))
    by (apply semiMajorAxis_R; exact Hv).
  assert (Hapos : 0 < semiMajorAxis E).
  { rewrite Ha. apply Rdiv_lt_0_compat; lra. }
  assert (Hprod : semiMajorAxis E * (10 - speed * speed) = 20).
  { rewrite Ha. field. lra. }
  unfold rMin, rMax, INITIAL_RADIUS. cbn [ofZ nmul nadd nsub R_Number].
  remember (semiMajorAxis E) as a eqn:Ea.
  remember (eccentricity E h) as e eqn:Ee.
  assert (Hmax : 4 <= a * (1 + e)) by nra.
  assert (Hmin : a * (1 - e) <= 4) by nra.
  split; [split; [nra | exact Hmin]|].
  split; [exact Hmax|]. split; [ring|]. split; [|lra].
  assert (Hstats : trajectoryStats speed angle =
            if Rleb 0 E then mkStats Infinity "Interstellar Space (Escape)" E
            else mkStats (Num (semiMajorAxis E * (1 + eccentricity E h) / 4))
                         (targetOf (semiMajorAxis E * (1 + eccentricity E h) / 4)) E)
    by reflexivity.
  rewrite Hstats.
  assert (Rleb 0 E = false) as -> by (apply Rleb_false; exact HE).
  cbn [maxAU]. rewrite <- Ea, <- Ee. reflexivity.
Qed.

(** Launched along the tangent (angle 0) at no more than the circular
    speed, [v^2 <= 5], the launch point is the apoapsis: the predictor
    reports exactly 1 AU and "Low Earth Orbit", at every such speed.
    Between the circular and the escape speed, [5 <= v^2 < 10], the launch
    point is the periapsis and the reported aphelion is
    [v^2 / (10 - v^2)] AU. *)
Theorem tangential_launch_prediction (v : R) :
  (v * v <= 5 ->
   trajectoryStats v 0 = mkStats (Num 1) "Low Earth Orbit" (specificEnergy v)) /\
  (5 <= v * v < 10 ->
   maxAU (trajectoryStats v 0) = Num (v * v / (10 - v * v)) /\
   rMin (specificEnergy v) (angularMomentum v 0) = INITIAL_RADIUS).
Proof.
  assert (Hecc : v * v < 10 ->
            eccentricity (specificEnergy v) (angularMomentum v 0) =
            Rabs (1 - v * v / 5)).
  { intros Hv. rewrite eccentricity_val.
    replace (0 * PI / 180) with 0 by field. rewrite cos_0.
    replace (1 - (10 - v * v) * (v * v) * (1 * 1) / 25)
      with (Rsqr (1 - v * v / 5)) by (unfold Rsqr; field).
    apply sqrt_Rsqr_abs. }
  assert (Hstats : trajectoryStats v 0 =
            if Rleb 0 (specificEnergy v)
            then mkStats Infinity "Interstellar Space (Escape)" (specificEnergy v)
            else mkStats (Num (rMax (specificEnergy v) (angularMomentum v 0) / 4))
                         (targetOf (rMax (specificEnergy v) (angularMomentum v 0) / 4))
                         (specificEnergy v))
    by reflexivity.
  assert (Hbound : v * v < 10 -> Rleb 0 (specificEnergy v) = false).
  { intros Hv. apply Rleb_false. rewrite specificEnergy_R_val. lra. }
  split.
  - intros Hv. assert (Hv' : v * v < 10) by lra.
    assert (Hmax : rMax (specificEnergy v) (angularMomentum v 0) / 4 = 1).
    { unfold rMax. rewrite (Hecc Hv'), (semiMajorAxis_R Hv').
      rewrite Rabs_pos_eq by lra. cbn [ofZ nmul nadd R_Number]. field. lra. }
    rewrite Hstats, (Hbound Hv'), Hmax. f_equal.
    unfold targetOf. cbn [nltb R_Number].
    assert (Rltb 1 (tenths 11) = true) as ->; [|reflexivity].
    apply Rltb_true. unfold tenths. cbn [ofZ ndiv R_Number]. lra.
  - intros [Hlo Hhi]. split.
    + rewrite Hstats, (Hbound Hhi). cbn [maxAU]. f_equal.
      unfold rMax. rewrite (Hecc Hhi), (semiMajorAxis_R Hhi).
      rewrite Rabs_left1 by lra. cbn [ofZ nmul nadd R_Number]. field. lra.
    + unfold rMin. rewrite (Hecc Hhi), (semiMajorAxis_R Hhi).
      rewrite Rabs_left1 by lra. unfold INITIAL_RADIUS.
      cbn [ofZ nmul nsub R_Number]. field. lra.
Qed.

(** The predictor cannot tell an inward from an outward launch: it gives
    the same result for the angles [a] and [-a], while the launch
    velocities the integrator starts from differ in the sign of their
    radial component. *)
Theorem prediction_ignores_sign_of_angle (v a : R) :
  trajectoryStats v (- a) = trajectoryStats v a /\
  satVel (resetEffect v (- a)) =
    Vec3 (- x (satVel (resetEffect v a))) 0 (z (satVel (resetEffect v a))).
Proof.
  assert (Hrad : - a * PI / 180 = - (a * PI / 180)) by field.
  split.
  - unfold trajectoryStats, angularMomentum. cbn [nmul ndiv ofZ R_Number Math_PI Math_cos R_Trig].
    rewrite Hrad, cos_neg. reflexivity.
  - unfold resetEffect. cbn. rewrite Hrad, cos_neg, sin_neg. f_equal. ring.
Qed.
End PredictorMore.

Section Bands.
Local Open Scope string_scope.
Local Open Scope R_scope.

(** The chain of tests on the aphelion cuts the line into eight
    consecutive intervals, one per label, without gap or overlap: a label
    is shown exactly for the distances of its interval. *)
Theorem target_labels_are_intervals (d : R) :
  (targetOf d = "Low Earth Orbit" <-> d < 11 / 10) /\
  (targetOf d = "High Earth Orbit" <-> 11 / 10 <= d < 14 / 10) /\
  (targetOf d = "Reaching Mars" <-> 14 / 10 <= d < 18 / 10) /\
  (targetOf d = "Asteroid Belt" <-> 18 / 10 <= d < 3) /\
  (targetOf d = "Reaching Jupiter" <-> 3 <= d < 6) /\
  (targetOf d = "Reaching Saturn" <-> 6 <= d < 12) /\
  (targetOf d = "Reaching Uranus" <-> 12 <= d < 25) /\
  (targetOf d = "Reaching Neptune/Pluto" <-> 25 <= d).
Proof.
  unfold targetOf, tenths. cbn [nltb ofZ ndiv R_Number].
  repeat match goal with
  | |- context [Rltb ?a ?b] =>
      let H := fresh "H" in
      destruct (Rltb a b) eqn:H;
      [apply Rltb_true in H | apply Rltb_false in H]
  end;
  repeat split; intros; try reflexivity; try discriminate; lra.
Qed.
End Bands.

(** ** The falling object, over the reals *)

Section Falling.
Local Open Scope R_scope.






End Falling.

(** ** The order of the statuses *)

Section StatusOrder.
Context {N : Type} `{Number N} `{Trig N}.
Local Open Scope num_scope.

Lemma tick_status_rank (delta : N) (l : Lab N) :
  consistent l ->
  (statusRank (status l) <= statusRank (status (tick delta l)))%nat.
Proof.
  intros (Hrun & Hcr & _).
  destruct (running l) eqn:Er.
  2:{ rewrite tick_inactive by (left; exact Er). apply Nat.le_refl. }
  destruct (crashed (scene l)) eqn:Ec.
  { rewrite tick_inactive by (right; exact Ec). apply Nat.le_refl. }
  assert (Hnc : status l <> CRASH).
  { intros E. apply Hcr in E. congruence. }
  destruct (useFrame_outcome delta (scene l) Ec) as (k & _ & _ & _ & Hcase).
  cbv zeta in Hcase. unfold tick. rewrite Er. cbn [status].
  destruct Hcase as [(_ & _ & _ & ->) | (_ & _ & _ & _ & ->)].
  - destruct (status_after_escapeCalls 4 (subDt delta)
                (satPos (scene l), satVel (scene l)) (status l)) as [-> | ->].
    + apply Nat.le_refl.
    + destruct (status l); cbn; try lia. congruence.
  - rewrite invoke_last. cbn [invoke]. destruct (status l); cbn; lia.
Qed.

Lemma step_status_rank (l : Lab N) (a : Action N) :
  consistent l -> keepsRun a = true ->
  (statusRank (status l) <= statusRank (status (step l a)))%nat.
Proof.
  intros Hl Ha. destruct a; try discriminate Ha; cbn [step].
  - apply tick_status_rank. exact Hl.
  - unfold handlePlay. destruct (running l) eqn:Er; [apply Nat.le_refl|].
    destruct Hl as (Hrun & _ & _).
    rewrite (proj1 Hrun Er). cbn. lia.
Qed.

(** Between resets the status only moves forward along
    [IDLE], [ORBITING], [ESCAPE], [CRASH]: frames and launch clicks never
    take it back.  In particular the escape badge, once shown, stays until a
    crash or a reset, even if the satellite returns inside [r = 60]. *)
Theorem status_only_moves_forward (before actions : list (Action N)) :
  forallb keepsRun actions = true ->
  let l := run mounted before in
  (statusRank (status l) <= statusRank (status (run l actions)))%nat /\
  (status l = ESCAPE ->
   status (run l actions) = ESCAPE \/ status (run l actions) = CRASH).
Proof.
  intros Hk l.
  assert (Hl : consistent l).
  { exact (proj1 (run_settled before mounted_settled)). }
  assert (Hrank : (statusRank (status l) <= statusRank (status (run l actions)))%nat).
  { clearbody l. unfold run. revert l Hl.
    induction actions as [|a actions IH]; intros l Hl; [apply Nat.le_refl|].
    cbn [forallb] in Hk. apply andb_prop in Hk. destruct Hk as [Ha Hk].
    cbn [fold_left].
    apply Nat.le_trans with (statusRank (status (step l a))).
    - apply step_status_rank; assumption.
    - apply IH; [exact Hk | apply step_consistent; exact Hl]. }
  split; [exact Hrank|].
  intros Hs. rewrite Hs in Hrank. cbn in Hrank.
  destruct (status (run l actions)); cbn in Hrank; try lia; auto.
Qed.
End StatusOrder.

(** ** The hit callback of the falling object, in any arithmetic *)

Section FallingAny.
Context {N : Type} `{Number N}.
Local Open Scope num_scope.

Lemma fall_frozen (g : N) (deltas : list N) (o : FallingObject N) :
  hitRef o = true -> fall g deltas o = (o, []).
Proof.
  intros Hh. induction deltas as [|d ds IH]; [reflexivity|].
  cbn [fall]. unfold fallFrame. rewrite Hh. cbn [andb negb fst snd].
  rewrite IH. reflexivity.
Qed.

(** Whatever the arithmetic, the frame lengths and the state it starts
    from, a falling object invokes [onHit] at most once until it is reset,
    and only in a frame that sets the hit flag and puts the object on the
    floor at height 0.5; an object that has hit is left alone by all later
    frames. *)
Theorem fall_hits_at_most_once (g : N) (deltas : list N) (o : FallingObject N) :
  (List.length (snd (fall g deltas o)) <= 1)%nat /\
  (snd (fall g deltas o) <> [] ->
   hitRef (fst (fall g deltas o)) = true /\
   positionY (fst (fall g deltas o)) = tenths 5 /\
   snd (fall g deltas o) = [timeRef (fst (fall g deltas o))]) /\
  (hitRef o = true -> fall g deltas o = (o, [])).
Proof.
  split; [|split; [|apply fall_frozen]].
  - revert o. induction deltas as [|d ds IH]; intros o; [cbn; lia|].
    cbn [fall]. unfold fallFrame.
    destruct (true && negb (hitRef o)); [|cbn [fst snd]; apply IH].
    cbv zeta.
    destruct (nleb _ _); cbn [fst snd]; [|apply IH].
    rewrite fall_frozen by reflexivity. cbn. lia.
  - revert o. induction deltas as [|d ds IH]; intros o; [cbn; congruence|].
    cbn [fall]. unfold fallFrame.
    destruct (true && negb (hitRef o)); [|cbn [fst snd]; apply IH].
    cbv zeta.
    destruct (nleb _ _); cbn [fst snd]; [|apply IH].
    rewrite fall_frozen by reflexivity. cbn. intros _. repeat split.
Qed.
End FallingAny.

(** ** The further statements at concrete inputs *)

Section MoreInstances.
Local Open Scope R_scope.

(** A launch and two frames after mounting leave the angular momentum of
    the mounted lab. *)
Lemma angular_momentum_conserved_between_resets_witness :
  let actions := [Play; Tick (1 / 60); Tick 1] in
  forallb (keepsRun (N:=R)) actions = true /\
  momentOf (scene (run mounted actions)) = momentOf (scene (mounted (N:=R))).
Proof.
  intros actions. split; [reflexivity|].
  exact (@angular_momentum_conserved_between_resets mounted actions eq_refl).
Defined.

(** A launch followed by a frame and another launch click comes after the
    status reached by the launch. *)
Lemma status_only_moves_forward_witness :
  let before := [Play (N:=R)] in
  let actions := [Tick 1; Play] in
  forallb keepsRun actions = true /\
  (statusRank (status (run mounted before)) <=
   statusRank (status (run (run mounted before) actions)))%nat.
Proof.
  intros before actions. split; [reflexivity|].
  exact (proj1 (@status_only_moves_forward R _ _ before actions eq_refl)).
Defined.

(** Speed 3 at 20 degrees is a bound orbit whose apoapsis is not inside
    the launch radius. *)
Lemma launch_radius_between_apsides_witness :
  specificEnergy (N:=R) 3 < 0 /\
  INITIAL_RADIUS <= rMax (specificEnergy 3) (angularMomentum 3 20).
Proof.
  assert (HE : specificEnergy (N:=R) 3 < 0).
  { rewrite specificEnergy_R_val. lra. }
  split; [exact HE|].
  exact (proj1 (proj2 (@launch_radius_between_apsides 3 20 HE))).
Defined.

End MoreInstances.
